(** * lib/repository.py: entry validation, entry store, release resolution,
      add-on manifest aggregation and asset URL resolution.

    A shallow embedding of [src/lib/repository.py].  Python values coming
    out of [json.load] are an inductive type, exceptions are a sum type,
    and the methods of [Repository] are functions in a state-and-exception
    monad whose state carries the [OrderedDict] of add-ons, the two TTL
    caches, the log and the list of URLs handed to [urlopen]. *)

From Stdlib Require Import String Ascii List ZArith Bool Lia SpecFloat.
From Stdlib Require Import Permutation.
Import ListNotations.
Open Scope string_scope.
Open Scope Z_scope.

Set Warnings "-register-all".

(** ** Python values *)

(** What [json.load] produces (None, bool, int, float, str, list, dict),
    plus tuples, which [validate_json_schema] accepts next to lists.
    A dict is kept as an association list in insertion order; its keys are
    values because the validator inspects keys that are not strings. *)
Inductive value : Type :=
| VNone
| VBool (b : bool)
| VInt (n : Z)
| VFloat (f : spec_float)
| VStr (s : string)
| VList (l : list value)
| VTuple (l : list value)
| VDict (d : list (value * value)).

(** Exceptions of the code and of the library calls it makes.  [Unmodelled]
    marks Python behaviour that this development does not describe (for
    instance [str.format] rendering a list): no theorem below relies on it. *)
Inductive exn : Type :=
| InvalidSchemaError
| KeyError
| TypeError
| AttributeError
| ValueError
| IndexError
| URLError
| ParseError
| OSError
| Unmodelled.

Inductive res (A : Type) : Type :=
| Ok (a : A)
| Raise (e : exn).
Arguments Ok {A} a.
Arguments Raise {A} e.

Definition res_bind {A B} (r : res A) (k : A -> res B) : res B :=
  match r with
  | Ok a => k a
  | Raise e => Raise e
  end.

Declare Scope res_scope.
Delimit Scope res_scope with res.
Notation "x <- c1 ;; c2" := (res_bind c1 (fun x => c2))
  (at level 61, c1 at next level, right associativity) : res_scope.
Notation "c1 ;; c2" := (res_bind c1 (fun _ => c2))
  (at level 61, right associativity) : res_scope.

(** Python truthiness, as used by [x or y] and [if x and ...]. *)
Definition truthy (v : value) : bool :=
  match v with
  | VNone => false
  | VBool b => b
  | VInt n => negb (n =? 0)
  | VFloat (S754_zero _) => false
  | VFloat _ => true
  | VStr s => negb (s =? "")%string
  | VList l | VTuple l => match l with [] => false | _ => true end
  | VDict d => match d with [] => false | _ => true end
  end.

(** Modelled from the spec: [lib.utils.string_types] is not part of the
    source at hand; the spec calls the fields it types "string", so
    [isinstance(v, string_types)] is "v is a str". *)
Definition is_string (v : value) : bool :=
  match v with VStr _ => true | _ => false end.

Definition is_dict (v : value) : bool :=
  match v with VDict _ => true | _ => false end.

Definition is_list (v : value) : bool :=
  match v with VList _ => true | _ => false end.

Definition is_tuple (v : value) : bool :=
  match v with VTuple _ => true | _ => false end.

(** [v == s] for a str [s]: only a str compares equal to a str. *)
Definition eq_str (s : string) (v : value) : bool :=
  match v with VStr s' => (s' =? s)%string | _ => false end.

(** ** Dict operations with a str key *)

Fixpoint dict_find (d : list (value * value)) (k : string) : option value :=
  match d with
  | [] => None
  | (k', v) :: d' => if eq_str k k' then Some v else dict_find d' k
  end.

(** [k in d] *)
Definition dict_has (d : list (value * value)) (k : string) : bool :=
  match dict_find d k with Some _ => true | None => false end.

(** [d.get(k, default)] *)
Definition dict_get (d : list (value * value)) (k : string) (default : value) : value :=
  match dict_find d k with Some v => v | None => default end.

(** [v[k]] for a str [k]: a dict raises [KeyError] on a missing key; a
    str, list or tuple wants an integer index and every other value is not
    subscriptable, both [TypeError]. *)
Definition subscript (v : value) (k : string) : res value :=
  match v with
  | VDict d => match dict_find d k with Some x => Ok x | None => Raise KeyError end
  | _ => Raise TypeError
  end.

(** [v.get(k, default)]: only a dict has the method. *)
Definition get_method (v : value) (k : string) (default : value) : res value :=
  match v with
  | VDict d => Ok (dict_get d k default)
  | _ => Raise AttributeError
  end.

(** ** The entry schema *)

Inductive schema_type : Type := TString | TDict | TList.

Definition ENTRY_SCHEMA_required : list string := ["id"; "username"].

Definition ENTRY_SCHEMA_properties : list (string * schema_type) :=
  [ ("id", TString); ("username", TString); ("branch", TString);
    ("assets", TDict); ("asset_prefix", TString); ("repository", TString);
    ("platforms", TList) ].

Fixpoint properties_find (ps : list (string * schema_type)) (k : value) : option schema_type :=
  match ps with
  | [] => None
  | (name, t) :: ps' => if eq_str name k then Some t else properties_find ps' k
  end.

(** [isinstance(value, value_type)] *)
Definition isinstance (v : value) (t : schema_type) : bool :=
  match t with
  | TString => is_string v
  | TDict => is_dict v
  | TList => is_list v
  end.

Fixpoint raise_unless_all {A} (ok : A -> bool) (l : list A) : res unit :=
  match l with
  | [] => Ok tt
  | a :: l' => if ok a then raise_unless_all ok l' else Raise InvalidSchemaError
  end.

(** Lines 55-67: the checks made on one [(key, value)] item. *)
Definition validate_item (kv : value * value) : res unit :=
  let (key, v) := kv in
  match properties_find ENTRY_SCHEMA_properties key with
  | None => Raise InvalidSchemaError
  | Some value_type =>
      if negb (isinstance v value_type) then Raise InvalidSchemaError
      else
        match value_type, v with
        | TDict, VDict d =>
            raise_unless_all (fun kv' => is_string (fst kv') && is_string (snd kv')) d
        | TList, VList l => raise_unless_all is_string l
        | _, _ => Ok tt
        end
  end.

Fixpoint validate_items (d : list (value * value)) : res unit :=
  match d with
  | [] => Ok tt
  | kv :: d' => (validate_item kv ;; validate_items d')%res
  end.

Fixpoint validate_required (keys : list string) (d : list (value * value)) : res unit :=
  match keys with
  | [] => Ok tt
  | key :: keys' =>
      if negb (dict_has d key) then Raise InvalidSchemaError
      else validate_required keys' d
  end.

Definition validate_entry_schema (entry : value) : res unit :=
  match entry with
  | VDict d => (validate_required ENTRY_SCHEMA_required d ;; validate_items d)%res
  | _ => Raise InvalidSchemaError
  end.

Fixpoint validate_entries (data : list value) : res unit :=
  match data with
  | [] => Ok tt
  | entry :: data' => (validate_entry_schema entry ;; validate_entries data')%res
  end.

Definition validate_json_schema (data : value) : res unit :=
  match data with
  | VList l | VTuple l => validate_entries l
  | _ => Raise InvalidSchemaError
  end.

(** ** Strings: the [str] methods the code calls *)

Definition startswith (s p : string) : bool := prefix p s.

Definition endswith (s suffix : string) : bool :=
  let n := String.length s in
  let m := String.length suffix in
  (m <=? n)%nat && (substring (n - m) m s =? suffix)%string.

(** [s[start:stop]], with Python's reading of negative and out-of-range
    bounds. *)
Definition py_slice (s : string) (start stop : Z) : string :=
  let n := Z.of_nat (String.length s) in
  let norm i := if i <? 0 then Z.max 0 (n + i) else Z.min i n in
  let a := norm start in
  let b := norm stop in
  if a <? b then substring (Z.to_nat a) (Z.to_nat (b - a)) s else "".

(** [s in t] for two strs *)
Definition is_substring (s t : string) : bool :=
  match index 0 s t with Some _ => true | None => false end.

(** [s in container] *)
Definition contains (container : value) (s : string) : res bool :=
  match container with
  | VList l | VTuple l => Ok (existsb (eq_str s) l)
  | VDict d => Ok (dict_has d s)
  | VStr t => Ok (is_substring s t)
  | _ => Raise TypeError
  end.

(** [for x in v] *)
Definition iterate (v : value) : res (list value) :=
  match v with
  | VList l | VTuple l => Ok l
  | VDict d => Ok (map fst d)
  | VStr s => Ok (map (fun c => VStr (String c "")) (list_ascii_of_string s))
  | _ => Raise TypeError
  end.

(** [prefix + v] for a str [prefix] *)
Definition str_add (prefix : string) (v : value) : res string :=
  match v with
  | VStr s => Ok (prefix ++ s)
  | _ => Raise TypeError
  end.

(** ** [str.format] with keyword arguments

    Replacement fields are plain names; [{{] and [}}] are the escaped
    braces.  Conversions, format specs, attribute and index access are not
    described, nor is the rendering of values other than strs. *)

Fixpoint kwargs_find (kwargs : list (string * value)) (name : string) : option value :=
  match kwargs with
  | [] => None
  | (k, v) :: kwargs' => if (k =? name)%string then Some v else kwargs_find kwargs' name
  end.

Definition render (v : value) : res string :=
  match v with
  | VStr s => Ok s
  | _ => Raise Unmodelled
  end.

Definition is_digit (c : ascii) : bool :=
  let n := nat_of_ascii c in (48 <=? n)%nat && (n <=? 57)%nat.

Fixpoint string_forallb (p : ascii -> bool) (s : string) : bool :=
  match s with
  | EmptyString => true
  | String c s' => p c && string_forallb p s'
  end.

Definition special_field_char (c : ascii) : bool :=
  (c =? "!")%char || (c =? ":")%char || (c =? ".")%char || (c =? "[")%char.

Definition format_field (name : string) (kwargs : list (string * value)) : res string :=
  if negb (string_forallb (fun c => negb (special_field_char c)) name) then Raise Unmodelled
  else if string_forallb is_digit name then Raise IndexError
  else match kwargs_find kwargs name with
       | Some v => render v
       | None => Raise KeyError
       end.

(** [field] is [Some name] while the scan is inside a replacement field. *)
Fixpoint format_scan (field : option string) (s : string)
                     (kwargs : list (string * value)) : res string :=
  match s with
  | EmptyString =>
      match field with
      | None => Ok ""
      | Some _ => Raise ValueError
      end
  | String c rest =>
      match field with
      | None =>
          if (c =? "{")%char then
            match rest with
            | String c2 rest' =>
                if (c2 =? "{")%char
                then (r <- format_scan None rest' kwargs ;; Ok (String "{" r))%res
                else format_scan (Some "") rest kwargs
            | EmptyString => Raise ValueError
            end
          else if (c =? "}")%char then
            match rest with
            | String c2 rest' =>
                if (c2 =? "}")%char
                then (r <- format_scan None rest' kwargs ;; Ok (String "}" r))%res
                else Raise ValueError
            | EmptyString => Raise ValueError
            end
          else (r <- format_scan None rest kwargs ;; Ok (String c r))%res
      | Some name =>
          if (c =? "}")%char then
            (v <- format_field name kwargs ;;
             r <- format_scan None rest kwargs ;;
             Ok (v ++ r))%res
          else if (c =? "{")%char then Raise Unmodelled
          else format_scan (Some (name ++ String c "")) rest kwargs
      end
  end.

(** [template.format] applied to keyword arguments only *)
Definition format (template : string) (kwargs : list (string * value)) : res string :=
  format_scan None template kwargs.

(** ** Constants *)

Definition GITHUB_CONTENT_BASE_URL : string :=
  "https://raw.githubusercontent.com/{username}/{repository}/{branch}/".
Definition GITHUB_RELEASES_URL : string :=
  "https://api.github.com/repos/{username}/{repository}/releases".
Definition GITHUB_LATEST_RELEASE_URL : string := GITHUB_RELEASES_URL ++ "/latest".
Definition GITHUB_RELEASE_URL : string := GITHUB_RELEASES_URL ++ "/{release}".
Definition GITHUB_ZIP_URL : string :=
  "https://github.com/{username}/{repository}/archive/{branch}.zip".

Definition ADDON_EXTENSION : string := ".zip".
Definition VERSION_SEPARATOR : string := "-".

(** ** Add-on records, the log and the XML documents *)

(** [namedtuple("ADDON", "id username branch assets asset_prefix repository")]:
    the fields hold whatever the entry held. *)
Record ADDON : Type := mkADDON {
  id : value;
  username : value;
  branch : value;
  assets : value;
  asset_prefix : value;
  repository : value
}.

Inductive Element : Type :=
| mkElement (tag : string) (attrib : list (string * string)) (text : string)
            (children : list Element).

Definition element_children (e : Element) : list Element :=
  match e with mkElement _ _ _ cs => cs end.

(** [root.append(child)] *)
Definition element_append (root child : Element) : Element :=
  match root with
  | mkElement t a x cs => mkElement t a x (cs ++ [child])
  end.

Inductive log_record : Type :=
| LogDebug (addon_id : value) (platform : string)
| LogError (addon_id : value) (cause : exn).

(** ** The world outside the module

    Library calls and collaborators whose results the code only passes
    along.  [urlopen_read url] is what [get_request(url)] returns or
    raises; the remote hosts do not change during one call. *)
Record World : Type := mkWorld {
  urlopen_read : string -> res string;
  open_read : string -> res string;
  json_loads : string -> res value;
  fromstring : string -> res Element;
  tostring : Element -> string;
  urljoin : string -> string -> string;
  md5_hexdigest : string -> string;
  platform_name : string;
  platform_system : string;
  platform_arch : string
}.

(** ** State of a [Repository] and of its surroundings *)

Record state : Type := mkState {
  files : list string;
  urls : list string;
  _max_threads : Z;
  _addons : list (string * ADDON);
  latest_release_cache : list ((string * string) * (value * Z));
  addons_xml_cache : option (string * Z);
  now : Z;
  log : list log_record;
  requests : list string
}.

Definition with_addons (st : state) (a : list (string * ADDON)) : state :=
  mkState (files st) (urls st) (_max_threads st) a (latest_release_cache st)
          (addons_xml_cache st) (now st) (log st) (requests st).

Definition with_latest_release_cache (st : state)
           (c : list ((string * string) * (value * Z))) : state :=
  mkState (files st) (urls st) (_max_threads st) (_addons st) c
          (addons_xml_cache st) (now st) (log st) (requests st).

Definition with_addons_xml_cache (st : state) (c : option (string * Z)) : state :=
  mkState (files st) (urls st) (_max_threads st) (_addons st) (latest_release_cache st)
          c (now st) (log st) (requests st).

Definition with_log (st : state) (l : list log_record) : state :=
  mkState (files st) (urls st) (_max_threads st) (_addons st) (latest_release_cache st)
          (addons_xml_cache st) (now st) l (requests st).

Definition with_requests (st : state) (r : list string) : state :=
  mkState (files st) (urls st) (_max_threads st) (_addons st) (latest_release_cache st)
          (addons_xml_cache st) (now st) (log st) r.

(** A computation returns or raises, and leaves a state either way: what
    was mutated before an exception stays mutated. *)
Definition M (A : Type) : Type := state -> res A * state.

Definition ret {A} (a : A) : M A := fun st => (Ok a, st).

Definition raise {A} (e : exn) : M A := fun st => (Raise e, st).

Definition bind {A B} (m : M A) (k : A -> M B) : M B :=
  fun st =>
    match m st with
    | (Ok a, st') => k a st'
    | (Raise e, st') => (Raise e, st')
    end.

Definition lift {A} (r : res A) : M A := fun st => (r, st).

(** [try: m  except Exception as e: handler(e)] *)
Definition try_except {A} (m : M A) (handler : exn -> M A) : M A :=
  fun st =>
    match m st with
    | (Ok a, st') => (Ok a, st')
    | (Raise e, st') => handler e st'
    end.

Declare Scope monad_scope.
Delimit Scope monad_scope with monad.
Notation "x <- c1 ;; c2" := (bind c1 (fun x => c2))
  (at level 61, c1 at next level, right associativity) : monad_scope.
Notation "c1 ;; c2" := (bind c1 (fun _ => c2))
  (at level 61, right associativity) : monad_scope.
Open Scope monad_scope.

Definition logging_debug (addon_id : value) (platform : string) : M unit :=
  fun st => (Ok tt, with_log st (log st ++ [LogDebug addon_id platform])).

Definition logging_error (addon_id : value) (cause : exn) : M unit :=
  fun st => (Ok tt, with_log st (log st ++ [LogError addon_id cause])).

(** [get_request(url)]: the URL is recorded, then the world answers. *)
Definition get_request (w : World) (url : string) : M string :=
  fun st => (urlopen_read w url, with_requests st (requests st ++ [url])).

(** ** The [OrderedDict] of add-ons, keyed by id *)

Fixpoint store_get (s : list (string * ADDON)) (k : string) : option ADDON :=
  match s with
  | [] => None
  | (k', a) :: s' => if (k' =? k)%string then Some a else store_get s' k
  end.

(** [s[k] = a]: a key already present keeps its place, a new key goes to
    the end. *)
Fixpoint store_set (s : list (string * ADDON)) (k : string) (a : ADDON)
  : list (string * ADDON) :=
  match s with
  | [] => [(k, a)]
  | (k', a') :: s' =>
      if (k' =? k)%string then (k', a) :: s' else (k', a') :: store_set s' k a
  end.

Definition store_keys (s : list (string * ADDON)) : list string := map fst s.

Definition store_values (s : list (string * ADDON)) : list ADDON := map snd s.

(** [self._addons[addon_id] = addon]: a str key is stored; a list or a
    dict is unhashable; other keys are not described here. *)
Definition addons_setitem (addon_id : value) (addon : ADDON) : M unit :=
  match addon_id with
  | VStr k => fun st => (Ok tt, with_addons st (store_set (_addons st) k addon))
  | VList _ | VDict _ => raise TypeError
  | _ => raise Unmodelled
  end.

(** ** Loading entries *)

Fixpoint for_each {A} (f : A -> M unit) (l : list A) : M unit :=
  match l with
  | [] => ret tt
  | a :: l' => f a ;; for_each f l'
  end.

(** Lines 118-128: the body of the loop of [_load_data]. *)
Definition load_entry (platform : string) (addon_data : value) : M unit :=
  addon_id <- lift (subscript addon_data "id") ;;
  platforms <- lift (get_method addon_data "platforms" VNone) ;;
  skip <- lift (if truthy platforms
                then (c <- contains platforms platform ;; Ok (negb c))%res
                else Ok false) ;;
  if (skip : bool) then logging_debug addon_id platform
  else
    username <- lift (subscript addon_data "username") ;;
    branch <- lift (get_method addon_data "branch" VNone) ;;
    assets <- lift (get_method addon_data "assets" (VDict [])) ;;
    asset_prefix <- lift (get_method addon_data "asset_prefix" (VStr "")) ;;
    repository <- lift (get_method addon_data "repository" addon_id) ;;
    addons_setitem addon_id
      (mkADDON addon_id username branch assets asset_prefix repository).

Definition _load_data (w : World) (data : value) : M unit :=
  let platform := platform_name w in
  entries <- lift (iterate data) ;;
  for_each (load_entry platform) entries.

Definition _load_file (w : World) (path : string) : M unit :=
  text <- lift (open_read w path) ;;
  data <- lift (json_loads w text) ;;
  _load_data w data.

Definition _load_url (w : World) (url : string) : M unit :=
  text <- get_request w url ;;
  data <- lift (json_loads w text) ;;
  _load_data w data.

Definition update (w : World) (clear : bool) : M unit :=
  (if clear then fun st => (Ok tt, with_addons st []) else ret tt) ;;
  us <- (fun st => (Ok (urls st), st)) ;;
  for_each (_load_url w) us ;;
  fs <- (fun st => (Ok (files st), st)) ;;
  for_each (_load_file w) fs.

(** ** The TTL cache *)

(** Modelled from the spec: [lib.cache.cached] is not part of the source at
    hand.  Following section 4.3 of the spec, a call returns the stored
    value while it has not expired; otherwise it runs the wrapped
    operation, stores the result with [now + seconds] as expiry and returns
    it.  An operation that raises stores nothing. *)
Definition cached {A} (lookup : state -> option (A * Z))
                      (store : A * Z -> state -> state)
                      (seconds : Z) (operation : M A) : M A :=
  fun st =>
    let recompute :=
      match operation st with
      | (Ok a, st') => (Ok a, store (a, now st' + seconds) st')
      | (Raise e, st') => (Raise e, st')
      end in
    match lookup st with
    | Some (a, expiry) => if now st <? expiry then (Ok a, st) else recompute
    | None => recompute
    end.

Definition key_eqb (k1 k2 : string * string) : bool :=
  (fst k1 =? fst k2)%string && (snd k1 =? snd k2)%string.

Fixpoint release_cache_find (c : list ((string * string) * (value * Z)))
                            (k : string * string) : option (value * Z) :=
  match c with
  | [] => None
  | (k', e) :: c' => if key_eqb k' k then Some e else release_cache_find c' k
  end.

Fixpoint release_cache_set (c : list ((string * string) * (value * Z)))
                           (k : string * string) (e : value * Z)
  : list ((string * string) * (value * Z)) :=
  match c with
  | [] => [(k, e)]
  | (k', e') :: c' =>
      if key_eqb k' k then (k', e) :: c' else (k', e') :: release_cache_set c' k e
  end.

(** ** Release resolution *)

(** Lines 135-137, the function under the decorator. *)
Definition latest_release (w : World) (username repository : string)
                          (default : value) : M value :=
  url <- lift (format GITHUB_LATEST_RELEASE_URL
                 [("username", VStr username); ("repository", VStr repository)]) ;;
  body <- get_request w url ;;
  data <- lift (json_loads w body) ;;
  lift (get_method data "tag_name" default).

(** [@cached(seconds=60 * 60)], keyed on the arguments of the call.  Only
    str arguments are described. *)
Definition get_latest_release (w : World) (username repository : value) : M value :=
  match username, repository with
  | VStr u, VStr r =>
      cached (fun st => release_cache_find (latest_release_cache st) (u, r))
             (fun e st => with_latest_release_cache st
                            (release_cache_set (latest_release_cache st) (u, r) e))
             (60 * 60)
             (latest_release w u r (VStr "master"))
  | _, _ => raise Unmodelled
  end.

Definition _get_addon_branch (w : World) (addon : ADDON) : M value :=
  if truthy (branch addon) then ret (branch addon)
  else get_latest_release w (username addon) (repository addon).

(** ** Fetching and merging the add-on documents *)

(** [urljoin(base, v)]: only a str second argument is described. *)
Definition urljoin_value (w : World) (base : string) (v : value) : res string :=
  match v with
  | VStr s => Ok (urljoin w base s)
  | _ => Raise Unmodelled
  end.

(** Lines 143-144: the URL of the add-on's [addon.xml].  The receiver of
    [.format] is evaluated before its arguments, so the branch is resolved
    after [urljoin]. *)
Definition addon_xml_url (w : World) (addon : ADDON) : M string :=
  path <- lift (get_method (assets addon) "addon.xml" (VStr "addon.xml")) ;;
  template <- lift (urljoin_value w GITHUB_CONTENT_BASE_URL path) ;;
  branch <- _get_addon_branch w addon ;;
  lift (format template
          [("id", id addon); ("username", username addon);
           ("repository", repository addon); ("branch", branch)]).

(** Lines 146-150 *)
Definition fetch_addon_xml (w : World) (addon : ADDON) (url : string) : M (option Element) :=
  try_except
    (body <- get_request w url ;;
     document <- lift (fromstring w body) ;;
     ret (Some document))
    (fun e => logging_error (id addon) e ;; ret None).

Definition _get_addon_xml (w : World) (addon : ADDON) : M (option Element) :=
  url <- addon_xml_url w addon ;;
  fetch_addon_xml w addon url.

(** Lines 164-165 *)
Definition append_result (root : Element) (result : option Element) : Element :=
  match result with
  | Some document => element_append root document
  | None => root
  end.

(** [num_threads <= 1]: [map] hands the results to the loop one by one,
    and an exception leaves the loop at once. *)
Fixpoint merge_sequential (w : World) (addons : list ADDON) (root : Element) : M Element :=
  match addons with
  | [] => ret root
  | addon :: addons' =>
      result <- _get_addon_xml w addon ;;
      merge_sequential w addons' (append_result root result)
  end.

(** The pool: every submitted task runs to its end and leaves a result or
    an exception in its future.  The tasks are run here in the order of
    submission; the world is fixed, so what each task returns does not
    depend on how the threads interleave. *)
Fixpoint run_submitted (w : World) (addons : list ADDON)
  : state -> list (res (option Element)) * state :=
  match addons with
  | [] => fun st => ([], st)
  | addon :: addons' =>
      fun st =>
        let (future, st') := _get_addon_xml w addon st in
        let (futures, st'') := run_submitted w addons' st' in
        (future :: futures, st'')
  end.

(** [f.result()] for each future in turn, then lines 163-165. *)
Fixpoint merge_futures (futures : list (res (option Element))) (root : Element)
  : res Element :=
  match futures with
  | [] => Ok root
  | Ok result :: futures' => merge_futures futures' (append_result root result)
  | Raise e :: _ => Raise e
  end.

(** Lines 154-165: the root element with the fetched documents under it. *)
Definition build_root (w : World) : M Element :=
  fun st =>
    let root := mkElement "addons" [] "" [] in
    let num_threads := Z.min (_max_threads st) (Z.of_nat (List.length (_addons st))) in
    if num_threads <=? 1 then
      merge_sequential w (store_values (_addons st)) root st
    else
      let (futures, st') := run_submitted w (store_values (_addons st)) st in
      (merge_futures futures root, st').

(** Lines 154-167, the function under the decorator. *)
Definition addons_xml (w : World) : M string :=
  root <- build_root w ;;
  ret (tostring w root).

Definition get_addons_xml (w : World) : M string :=
  cached addons_xml_cache
         (fun e st => with_addons_xml_cache st (Some e))
         (60 * 60)
         (addons_xml w).

Definition get_addons_xml_md5 (w : World) : M string :=
  xml <- get_addons_xml w ;;
  ret (md5_hexdigest w xml).

Definition clear_cache : M unit :=
  fun st => (Ok tt, with_latest_release_cache (with_addons_xml_cache st None) []).

(** ** Asset URLs *)

(** Lines 181-186: the formats, the key looked up in [addon.assets] and
    the default URL. *)
Definition select_asset (addon : ADDON) (addon_id asset : string)
                        (formats : list (string * value))
  : res (list (string * value) * string * string) :=
  if startswith asset (addon_id ++ VERSION_SEPARATOR) && endswith asset ADDON_EXTENSION then
    let version :=
      py_slice asset
               (Z.of_nat (String.length addon_id) + Z.of_nat (String.length VERSION_SEPARATOR))
               (- Z.of_nat (String.length ADDON_EXTENSION)) in
    Ok ((formats ++ [("version", VStr version)])%list, "zip", GITHUB_ZIP_URL)
  else
    (with_prefix <- str_add GITHUB_CONTENT_BASE_URL (asset_prefix addon) ;;
     Ok (formats, asset, with_prefix ++ asset))%res.

(** Lines 188-191 *)
Definition override_or_default (w : World) (addon : ADDON) (asset default_asset_url : string)
  : res string :=
  match subscript (assets addon) asset with
  | Ok v => urljoin_value w GITHUB_CONTENT_BASE_URL v
  | Raise KeyError => Ok default_asset_url
  | Raise e => Raise e
  end.

Definition get_asset_url (w : World) (addon_id asset : string) : M (option string) :=
  fun st =>
    match store_get (_addons st) addon_id with
    | None => (Ok None, st)
    | Some addon =>
        (branch <- _get_addon_branch w addon ;;
         let formats :=
           [("id", id addon); ("username", username addon);
            ("repository", repository addon); ("branch", branch);
            ("system", VStr (platform_system w)); ("arch", VStr (platform_arch w))] in
         selected <- lift (select_asset addon addon_id asset formats) ;;
         let '(formats', asset', default_asset_url) := selected in
         asset_url <- lift (override_or_default w addon asset' default_asset_url) ;;
         url <- lift (format asset_url formats') ;;
         ret (Some url)) st
    end.

(** [Repository(files, urls, max_threads, platform)] *)
Definition init_state (files urls : list string) (max_threads : Z) (time : Z) : state :=
  mkState files urls max_threads [] [] None time [] [].


(** ** What the schema says, in words

    The fields and their declared types, and the ways an entry can be
    malformed.  These follow the description of the validator, not its
    code; the theorems below relate the two. *)

Definition required_fields : list string := ["id"; "username"].
Definition string_fields : list string :=
  ["id"; "username"; "branch"; "asset_prefix"; "repository"].
Definition mapping_fields : list string := ["assets"].
Definition list_fields : list string := ["platforms"].
Definition schema_fields : list string :=
  (string_fields ++ mapping_fields ++ list_fields)%list.

Definition has_key (d : list (value * value)) (name : string) : Prop :=
  exists v, In (VStr name, v) d.

Inductive item_fault : value * value -> Prop :=
| key_outside_schema k v :
    (forall name, k = VStr name -> ~ In name schema_fields) ->
    item_fault (k, v)
| string_field_not_string name v :
    In name string_fields -> is_string v = false ->
    item_fault (VStr name, v)
| mapping_field_not_mapping name v :
    In name mapping_fields -> is_dict v = false ->
    item_fault (VStr name, v)
| list_field_not_list name v :
    In name list_fields -> is_list v = false ->
    item_fault (VStr name, v)
| mapping_with_non_string name m k' v' :
    In name mapping_fields -> In (k', v') m ->
    is_string k' = false \/ is_string v' = false ->
    item_fault (VStr name, VDict m)
| list_with_non_string name l x :
    In name list_fields -> In x l -> is_string x = false ->
    item_fault (VStr name, VList l).

Inductive malformed : value -> Prop :=
| not_a_mapping v :
    is_dict v = false -> malformed v
| required_key_missing d name :
    In name required_fields -> ~ has_key d name -> malformed (VDict d)
| item_at_fault d kv :
    In kv d -> item_fault kv -> malformed (VDict d).

(** ** What the loader is said to do with an entry *)

(** The record built for an entry with id [i] and owner [u]: the branch
    is the entry's or absent, [assets] defaults to the empty mapping,
    [asset_prefix] to the empty string and [repository] to the id. *)
Definition entry_record (d : list (value * value)) (i : string) (u : value) : ADDON :=
  mkADDON (VStr i) u
          (match dict_find d "branch" with Some b => b | None => VNone end)
          (match dict_find d "assets" with Some a => a | None => VDict [] end)
          (match dict_find d "asset_prefix" with Some p => p | None => VStr "" end)
          (match dict_find d "repository" with Some r => r | None => VStr i end).

(** The entry declares a non-empty platform whitelist and the platform is
    not in it. *)
Definition excluded (platform : string) (d : list (value * value)) : Prop :=
  exists l, dict_find d "platforms" = Some (VList l) /\ l <> [] /\ ~ In (VStr platform) l.

(** ** Release lookups, as described *)

(** The endpoint asked for the latest release of [username/repository]. *)
Definition latest_release_endpoint (username repository : string) : string :=
  "https://api.github.com/repos/" ++ username ++ "/" ++ repository ++ "/releases/latest".

(** The tag held by the cache for [username/repository], while it has not
    expired. *)
Definition fresh_release (st : state) (username repository : string) : option value :=
  match release_cache_find (latest_release_cache st) (username, repository) with
  | Some (tag, expiry) => if now st <? expiry then Some tag else None
  | None => None
  end.

(** ** The outcome of an aggregation, as described *)

(** Of the per-add-on outcomes in store order: the documents fetched, and
    the number of add-ons whose fetch failed and was skipped. *)
Definition fetched (outcome : res (option Element)) : list Element :=
  match outcome with
  | Ok (Some document) => [document]
  | _ => []
  end.

Definition documents (outcomes : list (res (option Element))) : list Element :=
  flat_map fetched outcomes.

Definition skipped (outcome : res (option Element)) : bool :=
  match outcome with
  | Ok None => true
  | _ => false
  end.

Definition failures (outcomes : list (res (option Element))) : nat :=
  List.length (filter skipped outcomes).

(** ** A sample world and sample entries

    Used to run the definitions on concrete inputs.  The release endpoint
    of [u/r] answers with tag [v1], that of [u/down] is unreachable, and
    the [addon.xml] of [u/bad] at branch [m] cannot be fetched. *)

Definition sample_world : World :=
  mkWorld
    (fun url =>
       if (url =? "https://api.github.com/repos/u/r/releases/latest")%string then Ok "release"
       else if (url =? "https://api.github.com/repos/u/down/releases/latest")%string
            then Raise URLError
       else if (url =? "https://raw.githubusercontent.com/u/bad/m/addon.xml")%string
            then Raise URLError
       else Ok url)
    (fun path => Raise OSError)
    (fun text =>
       if (text =? "release")%string then Ok (VDict [(VStr "tag_name", VStr "v1")])
       else Ok (VDict []))
    (fun body => Ok (mkElement "addon" [("src", body)] "" []))
    (fun root => "<addons/>")
    (fun base url => base ++ url)
    (fun text => "d41d8cd98f00b204e9800998ecf8427e")
    "linux" "linux" "x64".

Definition sample_entry (i : string) (more : list (value * value)) : list (value * value) :=
  (VStr "id", VStr i) :: (VStr "username", VStr "u") :: more.

Definition sample_state : state := init_state [] [] 5 0.

Definition first_a : list (value * value) :=
  sample_entry "a" [(VStr "branch", VStr "m")].

Definition second_a : list (value * value) :=
  sample_entry "a" [(VStr "repository", VStr "other")].

Definition no_branch : ADDON := entry_record (sample_entry "r" []) "r" (VStr "u").

Definition empty_branch : ADDON :=
  entry_record (sample_entry "r" [(VStr "branch", VStr "")]) "r" (VStr "u").

(** Three add-ons: the release lookup of the second one fails. *)
Definition store_with_down : list (string * ADDON) :=
  [("a", entry_record first_a "a" (VStr "u"));
   ("down", entry_record (sample_entry "down" []) "down" (VStr "u"));
   ("r", no_branch)].

(** Three add-ons with a branch: the [addon.xml] of the second one cannot
    be fetched. *)
Definition store_with_bad : list (string * ADDON) :=
  [("a", entry_record first_a "a" (VStr "u"));
   ("bad", entry_record (sample_entry "bad" [(VStr "branch", VStr "m")]) "bad" (VStr "u"));
   ("c", entry_record (sample_entry "c" [(VStr "branch", VStr "m")]) "c" (VStr "u"))].

(** A source whose second entry lacks [username], and one whose only entry
    has a key outside the schema. *)
Definition half_good_source : value :=
  VList [VDict first_a; VDict [(VStr "id", VStr "b")]].

Definition extra_key_source : value :=
  VList [VDict (sample_entry "a" [(VStr "bogus", VStr "x")])].


Definition windows_only : list (value * value) :=
  sample_entry "w" [(VStr "platforms", VList [VStr "windows"])].

(** ** What a load pass leaves alone *)


(** ** What a validated source leaves in the store *)

Definition excludedb (platform : string) (d : list (value * value)) : bool :=
  match dict_find d "platforms" with
  | Some (VList (x :: l)) => negb (existsb (eq_str platform) (x :: l))
  | _ => false
  end.

(** The id and the record an entry is loaded with on the platform, when it
    is loaded. *)
Definition loaded_record (platform : string) (e : value) : option (string * ADDON) :=
  match e with
  | VDict d =>
      match dict_find d "id", dict_find d "username" with
      | Some (VStr i), Some u =>
          if excludedb platform d then None else Some (i, entry_record d i u)
      | _, _ => None
      end
  | _ => None
  end.

(** The record of the last entry of the list that is loaded under [i]. *)
Fixpoint last_loaded (platform i : string) (entries : list value) : option ADDON :=
  match entries with
  | [] => None
  | e :: entries' =>
      match last_loaded platform i entries' with
      | Some a => Some a
      | None =>
          match loaded_record platform e with
          | Some (j, a) => if (j =? i)%string then Some a else None
          | None => None
          end
      end
  end.

(** The keys in order of first insertion. *)
Definition add_key (keys : list string) (i : string) : list string :=
  if existsb (String.eqb i) keys then keys else (keys ++ [i])%list.

Definition loaded_keys (platform : string) (entries : list value) (keys : list string)
  : list string :=
  fold_left (fun ks e => match loaded_record platform e with
                         | Some (i, _) => add_key ks i
                         | None => ks
                         end) entries keys.

(** ** Invariants of the store *)


Definition is_string_mapping (v : value) : bool :=
  match v with
  | VDict d => forallb (fun kv => is_string (fst kv) && is_string (snd kv)) d
  | _ => false
  end.

(** The fields of a record have the types of the schema: strings, an
    optional string for the branch, a mapping of strings to strings for
    the assets. *)
Definition well_typed (a : ADDON) : bool :=
  is_string (id a) && is_string (username a) &&
  match branch a with VNone | VStr _ => true | _ => false end &&
  is_string_mapping (assets a) && is_string (asset_prefix a) && is_string (repository a).

Definition all_well_typed (s : list (string * ADDON)) : Prop :=
  Forall (fun ka => well_typed (snd ka) = true) s.

(** ** Asset names and templates *)

(** The test of line 181: the asset is named like a source archive of the
    add-on. *)
Definition archive_form (addon_id asset : string) : bool :=
  startswith asset (addon_id ++ VERSION_SEPARATOR) && endswith asset ADDON_EXTENSION.

Definition is_brace (c : ascii) : bool := (c =? "{")%char || (c =? "}")%char.

(** A text without braces: [str.format] has nothing to replace in it. *)
Definition no_braces (s : string) : bool :=
  string_forallb (fun c => negb (is_brace c)) s.

(** The formats of line 178-180 for an add-on and its resolved branch. *)
Definition asset_formats (w : World) (addon : ADDON) (branch : value)
  : list (string * value) :=
  [("id", id addon); ("username", username addon);
   ("repository", repository addon); ("branch", branch);
   ("system", VStr (platform_system w)); ("arch", VStr (platform_arch w))].

(** ** Add-ons with a branch of their own *)

(** The URL of the [addon.xml] of an add-on whose branch is set: lines
    143-144 with [addon.branch] for the resolved branch. *)
Definition pinned_addon_xml_url (w : World) (addon : ADDON) : res string :=
  (path <- get_method (assets addon) "addon.xml" (VStr "addon.xml") ;;
   template <- urljoin_value w GITHUB_CONTENT_BASE_URL path ;;
   format template
          [("id", id addon); ("username", username addon);
           ("repository", repository addon); ("branch", branch addon)])%res.

(** * Properties *)

(** ** The result monad *)

Lemma res_bind_ok {A B} (r : res A) (k : A -> res B) (b : B) :
  res_bind r k = Ok b <-> exists a, r = Ok a /\ k a = Ok b.
Proof.
  destruct r as [a|e]; simpl; split.
  - intros H. exists a. auto.
  - intros (a' & Ha & Hk). injection Ha as ->. exact Hk.
  - discriminate.
  - intros (a' & Ha & _). discriminate.
Qed.

(** ** Entry validation *)

Lemma dict_find_some_in d name v :
  dict_find d name = Some v -> In (VStr name, v) d.
Proof.
  induction d as [|[k x] d IH]; simpl; [discriminate|].
  destruct k; simpl; auto.
  destruct (String.eqb_spec s name) as [->|_]; auto.
  intros [= ->]. auto.
Qed.

Lemma dict_find_none_not_in d name :
  dict_find d name = None -> forall v, ~ In (VStr name, v) d.
Proof.
  induction d as [|[k x] d IH]; simpl; [tauto|].
  intros H v [Heq|Hin].
  - injection Heq as -> ->. simpl in H. rewrite String.eqb_refl in H. discriminate.
  - destruct (eq_str name k); [discriminate|]. exact (IH H v Hin).
Qed.

Lemma dict_has_iff d name : dict_has d name = true <-> has_key d name.
Proof.
  unfold dict_has, has_key.
  destruct (dict_find d name) as [v|] eqn:E; split; intros H; try discriminate; auto.
  - exists v. now apply dict_find_some_in.
  - destruct H as [v Hv]. now apply dict_find_none_not_in in Hv.
Qed.

Lemma raise_unless_all_ok {A} (ok : A -> bool) l :
  raise_unless_all ok l = Ok tt <-> forall a, In a l -> ok a = true.
Proof.
  induction l as [|a l IH]; simpl.
  - tauto.
  - destruct (ok a) eqn:E.
    + rewrite IH. split; [intros H b [<-|Hb]; auto | auto].
    + split; [discriminate|]. intros H. rewrite H in E; [discriminate | auto].
Qed.

Lemma raise_unless_all_cases {A} (ok : A -> bool) l :
  raise_unless_all ok l = Ok tt \/ raise_unless_all ok l = Raise InvalidSchemaError.
Proof.
  induction l as [|a l IH]; simpl; auto. destruct (ok a); auto.
Qed.

Lemma raise_unless_all_raises {A} (ok : A -> bool) l :
  raise_unless_all ok l = Raise InvalidSchemaError <-> exists a, In a l /\ ok a = false.
Proof.
  induction l as [|a l IH]; simpl.
  - split; [discriminate | intros (a & [] & _)].
  - destruct (ok a) eqn:E.
    + rewrite IH. split.
      * intros (b & Hb & Hf). eauto.
      * intros (b & [<-|Hb] & Hf); [congruence | eauto].
    + split; auto. intros _. eauto.
Qed.

Lemma properties_find_not_str k :
  is_string k = false -> properties_find ENTRY_SCHEMA_properties k = None.
Proof. destruct k; simpl; intros H; try reflexivity; discriminate. Qed.

Lemma properties_find_string name :
  In name string_fields -> properties_find ENTRY_SCHEMA_properties (VStr name) = Some TString.
Proof. simpl. intuition (subst; reflexivity). Qed.

Lemma properties_find_mapping name :
  In name mapping_fields -> properties_find ENTRY_SCHEMA_properties (VStr name) = Some TDict.
Proof. simpl. intuition (subst; reflexivity). Qed.

Lemma properties_find_list name :
  In name list_fields -> properties_find ENTRY_SCHEMA_properties (VStr name) = Some TList.
Proof. simpl. intuition (subst; reflexivity). Qed.

Lemma properties_find_some k t :
  properties_find ENTRY_SCHEMA_properties k = Some t ->
  exists name, k = VStr name /\
    match t with
    | TString => In name string_fields
    | TDict => In name mapping_fields
    | TList => In name list_fields
    end.
Proof.
  destruct k as [| | | |name| | |]; try discriminate.
  intros H. exists name. split; [reflexivity|].
  unfold ENTRY_SCHEMA_properties, properties_find, eq_str in H.
  repeat match type of H with
         | (if (name =? ?s)%string then _ else _) = _ =>
             destruct (String.eqb_spec name s) as [->|_];
             [injection H as <-; simpl; tauto|]
         end.
  discriminate.
Qed.

Lemma properties_find_none name :
  properties_find ENTRY_SCHEMA_properties (VStr name) = None -> ~ In name schema_fields.
Proof.
  intros H Hin.
  unfold schema_fields in Hin. rewrite !in_app_iff in Hin.
  destruct Hin as [Hin|[Hin|Hin]].
  - apply properties_find_string in Hin. congruence.
  - apply properties_find_mapping in Hin. congruence.
  - apply properties_find_list in Hin. congruence.
Qed.

Lemma in_schema_fields name :
  In name schema_fields <->
  In name string_fields \/ In name mapping_fields \/ In name list_fields.
Proof. unfold schema_fields. rewrite !in_app_iff. tauto. Qed.

Lemma properties_find_outside k :
  (forall name, k = VStr name -> ~ In name schema_fields) ->
  properties_find ENTRY_SCHEMA_properties k = None.
Proof.
  intros H.
  destruct (properties_find ENTRY_SCHEMA_properties k) as [t|] eqn:E; [|reflexivity].
  apply properties_find_some in E. destruct E as (name & -> & Hin).
  exfalso. apply (H name eq_refl). apply in_schema_fields.
  destruct t; tauto.
Qed.

Lemma validate_item_cases kv :
  validate_item kv = Ok tt \/ validate_item kv = Raise InvalidSchemaError.
Proof.
  destruct kv as [k v]. unfold validate_item.
  destruct (properties_find ENTRY_SCHEMA_properties k) as [t|]; auto.
  destruct (negb (isinstance v t)); auto.
  destruct t, v; auto using raise_unless_all_cases.
Qed.

Lemma validate_item_raises kv :
  validate_item kv = Raise InvalidSchemaError <-> item_fault kv.
Proof.
  destruct kv as [k v]. unfold validate_item. split.
  - destruct (properties_find ENTRY_SCHEMA_properties k) as [t|] eqn:E.
    + apply properties_find_some in E. destruct E as (name & -> & Hin).
      destruct (isinstance v t) eqn:Ety; simpl.
      * destruct t, v; simpl in Ety; try discriminate.
        -- intros H. apply raise_unless_all_raises in H.
           destruct H as ([k' v'] & Hkv & Hf). simpl in Hf.
           apply andb_false_iff in Hf.
           eapply mapping_with_non_string; eauto.
        -- intros H. apply raise_unless_all_raises in H.
           destruct H as (x & Hx & Hf).
           eapply list_with_non_string; eauto.
      * intros _. destruct t; simpl in Ety.
        -- now apply string_field_not_string.
        -- now apply mapping_field_not_mapping.
        -- now apply list_field_not_list.
    + intros _. apply key_outside_schema. intros name ->.
      now apply properties_find_none.
  - intros H. inversion H as [k0 v0 Hout|name v0 Hin Hty|name v0 Hin Hty|name v0 Hin Hty
                             |name m k' v' Hin Hkv Hf|name l x Hin Hx Hf]; subst.
    + now rewrite properties_find_outside.
    + rewrite (properties_find_string _ Hin). simpl. now rewrite Hty.
    + rewrite (properties_find_mapping _ Hin). simpl. now rewrite Hty.
    + rewrite (properties_find_list _ Hin). simpl. now rewrite Hty.
    + rewrite (properties_find_mapping _ Hin). simpl.
      apply raise_unless_all_raises. exists (k', v'). split; [exact Hkv|].
      simpl. now apply andb_false_iff.
    + rewrite (properties_find_list _ Hin). simpl.
      apply raise_unless_all_raises. eauto.
Qed.

Lemma validate_items_cases d :
  validate_items d = Ok tt \/ validate_items d = Raise InvalidSchemaError.
Proof.
  induction d as [|kv d IH]; simpl; auto.
  destruct (validate_item_cases kv) as [-> | ->]; simpl; auto.
Qed.

Lemma validate_items_raises d :
  validate_items d = Raise InvalidSchemaError <-> exists kv, In kv d /\ item_fault kv.
Proof.
  induction d as [|kv d IH]; simpl.
  - split; [discriminate | intros (kv & [] & _)].
  - destruct (validate_item_cases kv) as [E | E]; rewrite E; simpl.
    + rewrite IH. split.
      * intros (kv' & Hin & Hf). eauto.
      * intros (kv' & [<-|Hin] & Hf); [|eauto].
        apply validate_item_raises in Hf. congruence.
    + split; auto. intros _. exists kv. split; auto.
      now apply validate_item_raises.
Qed.

Lemma validate_required_cases keys d :
  validate_required keys d = Ok tt \/ validate_required keys d = Raise InvalidSchemaError.
Proof.
  induction keys as [|key keys IH]; simpl; auto.
  destruct (dict_has d key); simpl; auto.
Qed.

Lemma validate_required_raises keys d :
  validate_required keys d = Raise InvalidSchemaError <->
  exists name, In name keys /\ ~ has_key d name.
Proof.
  induction keys as [|key keys IH]; simpl.
  - split; [discriminate | intros (name & [] & _)].
  - destruct (dict_has d key) eqn:E; simpl.
    + rewrite IH. split.
      * intros (name & Hin & Hno). eauto.
      * intros (name & [<-|Hin] & Hno); [|eauto].
        apply dict_has_iff in E. contradiction.
    + split; auto. intros _. exists key. split; auto.
      intros Hk. apply dict_has_iff in Hk. congruence.
Qed.

Lemma validate_entry_schema_cases entry :
  validate_entry_schema entry = Ok tt \/
  validate_entry_schema entry = Raise InvalidSchemaError.
Proof.
  destruct entry; try (right; reflexivity).
  unfold validate_entry_schema.
  destruct (validate_required_cases ENTRY_SCHEMA_required d) as [-> | ->];
    [apply validate_items_cases | right; reflexivity].
Qed.

Lemma validate_entry_schema_raises entry :
  validate_entry_schema entry = Raise InvalidSchemaError <-> malformed entry.
Proof.
  split.
  - destruct entry; try (intros _; now apply not_a_mapping).
    unfold validate_entry_schema.
    destruct (validate_required_cases ENTRY_SCHEMA_required d) as [E | E];
      rewrite E.
    + intros H. apply validate_items_raises in H.
      destruct H as (kv & Hin & Hf). eapply item_at_fault; eauto.
    + intros _. apply validate_required_raises in E.
      destruct E as (name & Hin & Hno). eapply required_key_missing; eauto.
  - intros H. inversion H as [v Hd|d name Hin Hno|d kv Hin Hf]; subst.
    + destruct entry; try reflexivity; discriminate.
    + unfold validate_entry_schema.
      assert (E : validate_required ENTRY_SCHEMA_required d = Raise InvalidSchemaError)
        by (apply validate_required_raises; eauto).
      now rewrite E.
    + unfold validate_entry_schema.
      destruct (validate_required_cases ENTRY_SCHEMA_required d) as [E | E];
        rewrite E; [|reflexivity].
      apply validate_items_raises. eauto.
Qed.

Lemma validate_entry_schema_ok entry :
  validate_entry_schema entry = Ok tt <-> ~ malformed entry.
Proof.
  rewrite <- validate_entry_schema_raises.
  destruct (validate_entry_schema_cases entry) as [-> | ->]; split;
    congruence.
Qed.

(** C5.  [validate_entry_schema] raises [InvalidSchemaError] exactly on the
    malformed entries: a value that is not a mapping, a mapping without
    [id] or [username], with a key outside the schema, with a value that is
    not of its field's declared type, with an [assets] mapping holding a
    key or value that is not a string, or with a [platforms] list holding
    an element that is not a string.  On every other value it returns
    [None] and raises nothing. *)
Theorem validate_entry_schema_correct (entry : value) :
  (validate_entry_schema entry = Raise InvalidSchemaError <-> malformed entry) /\
  (validate_entry_schema entry = Ok tt <-> ~ malformed entry).
Proof.
  split.
  - apply validate_entry_schema_raises.
  - apply validate_entry_schema_ok.
Qed.

(** ** The store *)

Lemma store_get_set_same s k a : store_get (store_set s k a) k = Some a.
Proof.
  induction s as [|[k' a'] s IH]; simpl.
  - now rewrite String.eqb_refl.
  - destruct (String.eqb_spec k' k) as [->|Hne]; simpl.
    + now rewrite String.eqb_refl.
    + destruct (String.eqb_spec k' k); [contradiction | exact IH].
Qed.

Lemma store_get_set_other s k a j :
  j <> k -> store_get (store_set s k a) j = store_get s j.
Proof.
  intros Hj. induction s as [|[k' a'] s IH]; simpl.
  - destruct (String.eqb_spec k j); [congruence | reflexivity].
  - destruct (String.eqb_spec k' k) as [->|Hne]; simpl.
    + destruct (String.eqb_spec k j); [congruence | reflexivity].
    + destruct (String.eqb_spec k' j); [reflexivity | exact IH].
Qed.

Lemma store_get_none s k : store_get s k = None <-> ~ In k (store_keys s).
Proof.
  induction s as [|[k' a'] s IH]; simpl.
  - tauto.
  - destruct (String.eqb_spec k' k) as [->|Hne].
    + split; [discriminate | tauto].
    + rewrite IH. tauto.
Qed.

Lemma store_keys_set_present s k a :
  store_get s k <> None -> store_keys (store_set s k a) = store_keys s.
Proof.
  induction s as [|[k' a'] s IH]; simpl.
  - congruence.
  - destruct (String.eqb_spec k' k) as [->|Hne]; simpl; [reflexivity|].
    intros H. f_equal. exact (IH H).
Qed.

Lemma store_keys_set_absent s k a :
  store_get s k = None -> store_keys (store_set s k a) = (store_keys s ++ [k])%list.
Proof.
  induction s as [|[k' a'] s IH]; simpl.
  - reflexivity.
  - destruct (String.eqb_spec k' k) as [->|Hne]; simpl; [discriminate|].
    intros H. f_equal. exact (IH H).
Qed.

Lemma store_set_nodup s k a :
  NoDup (store_keys s) -> NoDup (store_keys (store_set s k a)).
Proof.
  intros Hs. destruct (store_get s k) as [a0|] eqn:E.
  - rewrite store_keys_set_present; [exact Hs | congruence].
  - rewrite store_keys_set_absent by exact E.
    apply store_get_none in E.
    apply NoDup_app; [exact Hs | repeat constructor; simpl; tauto |].
    intros x Hx [<-|[]]. contradiction.
Qed.

(** ** Loading one entry *)

Lemma existsb_eq_str s l : existsb (eq_str s) l = true <-> In (VStr s) l.
Proof.
  rewrite existsb_exists. split.
  - intros (v & Hin & Heq). destruct v; simpl in Heq; try discriminate.
    apply String.eqb_eq in Heq. now subst.
  - intros Hin. exists (VStr s). split; [exact Hin|]. simpl. apply String.eqb_refl.
Qed.

Lemma valid_string_field d name v :
  ~ malformed (VDict d) -> In name string_fields ->
  dict_find d name = Some v -> exists s, v = VStr s.
Proof.
  intros Hok Hname Hfind. apply dict_find_some_in in Hfind.
  destruct v; eauto; exfalso; apply Hok;
    (eapply item_at_fault; [exact Hfind | now apply string_field_not_string]).
Qed.

Lemma valid_required_field d name :
  ~ malformed (VDict d) -> In name required_fields ->
  exists s, dict_find d name = Some (VStr s).
Proof.
  intros Hok Hname.
  destruct (dict_find d name) as [v|] eqn:E.
  - destruct (valid_string_field d name v Hok) as [s ->]; eauto.
    simpl in Hname. simpl. tauto.
  - exfalso. apply Hok. eapply required_key_missing; [exact Hname|].
    intros [v Hv]. now apply dict_find_none_not_in in Hv.
Qed.

Lemma valid_platforms d :
  ~ malformed (VDict d) ->
  dict_find d "platforms" = None \/
  exists l, dict_find d "platforms" = Some (VList l).
Proof.
  intros Hok. destruct (dict_find d "platforms") as [v|] eqn:E; [right | now left].
  apply dict_find_some_in in E.
  destruct v; eauto; exfalso; apply Hok;
    (eapply item_at_fault; [exact E | apply list_field_not_list; simpl; auto]).
Qed.

Lemma load_entry_loaded platform d i u st :
  dict_find d "id" = Some (VStr i) ->
  dict_find d "username" = Some u ->
  (dict_find d "platforms" = None \/
   exists l, dict_find d "platforms" = Some (VList l) /\ (l = [] \/ In (VStr platform) l)) ->
  load_entry platform (VDict d) st =
  (Ok tt, with_addons st (store_set (_addons st) i (entry_record d i u))).
Proof.
  intros Hid Hu Hp.
  unfold load_entry, bind, lift, subscript, get_method, dict_get, entry_record, addons_setitem.
  rewrite Hid, Hu.
  destruct Hp as [Hp | (l & Hp & Hl)]; rewrite Hp; simpl.
  - reflexivity.
  - destruct l as [|x l]; simpl; [reflexivity|].
    destruct Hl as [Hl|Hl]; [discriminate|].
    apply existsb_eq_str in Hl. simpl in Hl. rewrite Hl. reflexivity.
Qed.

Lemma load_entry_skipped platform d i st :
  dict_find d "id" = Some (VStr i) ->
  excluded platform d ->
  load_entry platform (VDict d) st =
  (Ok tt, with_log st (log st ++ [LogDebug (VStr i) platform])).
Proof.
  intros Hid (l & Hp & Hne & Hnot).
  unfold load_entry, bind, lift, subscript, get_method, dict_get, logging_debug.
  rewrite Hid, Hp. simpl.
  destruct l as [|x l]; [congruence|]. simpl.
  destruct (existsb (eq_str platform) (x :: l)) eqn:E.
  - apply existsb_eq_str in E. contradiction.
  - simpl in E. rewrite E. reflexivity.
Qed.

Lemma not_excluded platform d :
  (dict_find d "platforms" = None \/ exists l, dict_find d "platforms" = Some (VList l)) ->
  ~ excluded platform d ->
  dict_find d "platforms" = None \/
  exists l, dict_find d "platforms" = Some (VList l) /\ (l = [] \/ In (VStr platform) l).
Proof.
  intros [Hp | (l & Hp)] Hnot; [now left | right].
  exists l. split; [exact Hp|].
  destruct l as [|x l]; [now left | right].
  destruct (existsb (eq_str platform) (x :: l)) eqn:E.
  - now apply existsb_eq_str.
  - exfalso. apply Hnot. exists (x :: l). split; [exact Hp|]. split; [discriminate|].
    intros Hin. apply existsb_eq_str in Hin. congruence.
Qed.

Lemma load_entry_valid platform e st :
  ~ malformed e -> exists st', load_entry platform e st = (Ok tt, st').
Proof.
  intros Hok.
  destruct e as [| | | | | | |d];
    try (exfalso; apply Hok; now apply not_a_mapping).
  destruct (valid_required_field d "id" Hok) as [i Hi]; [simpl; auto|].
  destruct (valid_required_field d "username" Hok) as [u Hu]; [simpl; auto|].
  destruct (valid_platforms d Hok) as [Hp | (l & Hp)].
  - erewrite load_entry_loaded; eauto.
  - destruct l as [|x l].
    + erewrite load_entry_loaded; eauto.
    + destruct (existsb (eq_str platform) (x :: l)) eqn:Ex.
      * apply existsb_eq_str in Ex. erewrite load_entry_loaded; eauto 6.
      * erewrite load_entry_skipped; eauto.
        exists (x :: l). repeat split; [exact Hp | discriminate |].
        intros Hin. apply existsb_eq_str in Hin. congruence.
Qed.

Lemma load_entry_store_step platform v st :
  _addons (snd (load_entry platform v st)) = _addons st \/
  exists k a, _addons (snd (load_entry platform v st)) = store_set (_addons st) k a.
Proof.
  unfold load_entry, bind, lift.
  destruct (subscript v "id") as [addon_id|e]; simpl; auto.
  destruct (get_method v "platforms" VNone) as [platforms|e]; simpl; auto.
  destruct (if truthy platforms
            then res_bind (contains platforms platform) (fun c => Ok (negb c))
            else Ok false) as [[|]|e]; simpl; auto.
  destruct (subscript v "username") as [u|e]; simpl; auto.
  destruct (get_method v "branch" VNone) as [b|e]; simpl; auto.
  destruct (get_method v "assets" (VDict [])) as [a|e]; simpl; auto.
  destruct (get_method v "asset_prefix" (VStr "")) as [ap|e]; simpl; auto.
  destruct (get_method v "repository" addon_id) as [r|e]; simpl; auto.
  destruct addon_id; simpl; eauto.
Qed.

Lemma for_each_invariant {A} (P : state -> Prop) (f : A -> M unit) :
  (forall a st, P st -> P (snd (f a st))) ->
  forall l st, P st -> P (snd (for_each f l st)).
Proof.
  intros Hf l. induction l as [|a l IH]; intros st Hst; simpl; [exact Hst|].
  unfold bind. specialize (Hf a st Hst).
  destruct (f a st) as [[[]|e] st']; simpl in *; auto.
Qed.

Lemma load_entry_nodup platform v st :
  NoDup (store_keys (_addons st)) ->
  NoDup (store_keys (_addons (snd (load_entry platform v st)))).
Proof.
  intros H.
  destruct (load_entry_store_step platform v st) as [-> | (k & a & ->)];
    [exact H | now apply store_set_nodup].
Qed.

Lemma _load_data_nodup w data st :
  NoDup (store_keys (_addons st)) ->
  NoDup (store_keys (_addons (snd (_load_data w data st)))).
Proof.
  intros H. unfold _load_data, bind, lift.
  destruct (iterate data) as [entries|e]; simpl; [|exact H].
  apply (for_each_invariant (fun s => NoDup (store_keys (_addons s)))); [|exact H].
  intros a s. apply load_entry_nodup.
Qed.

(** C6.  A validated entry whose non-empty platform whitelist misses the
    current platform is skipped: a debug record is logged and nothing else
    changes, the store included.  Any other validated entry gives its id
    the record built from the entry alone, with [repository] defaulting to
    the id, [assets] to the empty mapping and [asset_prefix] to the empty
    string; an entry without a whitelist is loaded whatever the platform. *)
Theorem load_entry_platform_filter (d : list (value * value)) (st : state) :
  validate_entry_schema (VDict d) = Ok tt ->
  exists i u,
    dict_find d "id" = Some (VStr i) /\
    dict_find d "username" = Some (VStr u) /\
    (forall platform, excluded platform d ->
       load_entry platform (VDict d) st =
       (Ok tt, with_log st (log st ++ [LogDebug (VStr i) platform]))) /\
    (forall platform, ~ excluded platform d ->
       load_entry platform (VDict d) st =
       (Ok tt, with_addons st (store_set (_addons st) i (entry_record d i (VStr u)))) /\
       store_get (store_set (_addons st) i (entry_record d i (VStr u))) i =
       Some (entry_record d i (VStr u))) /\
    (dict_find d "platforms" = None -> forall platform, ~ excluded platform d).
Proof.
  intros Hvalid. apply validate_entry_schema_ok in Hvalid.
  destruct (valid_required_field d "id" Hvalid) as [i Hi]; [simpl; auto|].
  destruct (valid_required_field d "username" Hvalid) as [u Hu]; [simpl; auto|].
  exists i, u. repeat split; auto.
  - intros platform. now apply load_entry_skipped.
  - apply load_entry_loaded; auto.
    apply not_excluded; auto using valid_platforms.
  - apply store_get_set_same.
  - intros Hnone platform (l & Hl & _). congruence.
Qed.

Lemma load_entry_platform_filter_witness :
  exists i u,
    dict_find windows_only "id" = Some (VStr i) /\
    dict_find windows_only "username" = Some (VStr u) /\
    (forall platform, excluded platform windows_only ->
       load_entry platform (VDict windows_only) sample_state =
       (Ok tt, with_log sample_state (log sample_state ++ [LogDebug (VStr i) platform]))) /\
    (forall platform, ~ excluded platform windows_only ->
       load_entry platform (VDict windows_only) sample_state =
       (Ok tt, with_addons sample_state
                 (store_set (_addons sample_state) i (entry_record windows_only i (VStr u)))) /\
       store_get (store_set (_addons sample_state) i (entry_record windows_only i (VStr u))) i =
       Some (entry_record windows_only i (VStr u))) /\
    (dict_find windows_only "platforms" = None ->
     forall platform, ~ excluded platform windows_only).
Proof.
  apply (load_entry_platform_filter windows_only sample_state).
  reflexivity.
Defined.

(** ** One record per id *)

Lemma _load_url_nodup w url st :
  NoDup (store_keys (_addons st)) ->
  NoDup (store_keys (_addons (snd (_load_url w url st)))).
Proof.
  intros H. unfold _load_url, bind, get_request, lift.
  destruct (urlopen_read w url) as [text|e]; simpl; [|exact H].
  destruct (json_loads w text) as [data|e]; simpl; [|exact H].
  now apply _load_data_nodup.
Qed.

Lemma _load_file_nodup w path st :
  NoDup (store_keys (_addons st)) ->
  NoDup (store_keys (_addons (snd (_load_file w path st)))).
Proof.
  intros H. unfold _load_file, bind, lift.
  destruct (open_read w path) as [text|e]; simpl; [|exact H].
  destruct (json_loads w text) as [data|e]; simpl; [|exact H].
  now apply _load_data_nodup.
Qed.

Lemma update_nodup w clear st :
  NoDup (store_keys (_addons st)) ->
  NoDup (store_keys (_addons (snd (update w clear st)))).
Proof.
  intros H.
  assert (Hloads : forall st0, NoDup (store_keys (_addons st0)) ->
            NoDup (store_keys (_addons (snd (update w false st0))))).
  { intros st0 H0. unfold update, bind, ret.
    pose proof (for_each_invariant (fun s => NoDup (store_keys (_addons s)))
                  (_load_url w) (fun a s => _load_url_nodup w a s) (urls st0) st0 H0) as H1.
    destruct (for_each (_load_url w) (urls st0) st0) as [[[]|e] st1]; simpl in *; [|exact H1].
    exact (for_each_invariant (fun s => NoDup (store_keys (_addons s)))
             (_load_file w) (fun a s => _load_file_nodup w a s) (files st1) st1 H1). }
  destruct clear; [|now apply Hloads].
  change (update w true st) with (update w false (with_addons st [])).
  apply Hloads. constructor.
Qed.

Lemma store_get_some_in s k a : store_get s k = Some a -> In k (store_keys s).
Proof.
  intros H. destruct (in_dec string_dec k (store_keys s)) as [Hin|Hnot]; [exact Hin|].
  apply store_get_none in Hnot. congruence.
Qed.

(** C7.  Loading keeps the ids of the store distinct, through any sequence
    of sources and through [update].  An entry that is loaded (validated
    and not skipped for its platform) leaves exactly one record under its
    id, built from that entry alone, whatever the store held before; so of
    two entries with one id loaded in turn, the second one's record stays. *)
Theorem one_record_per_id (w : World) (st : state) :
  NoDup (store_keys (_addons st)) ->
  (forall sources, NoDup (store_keys (_addons (snd (for_each (_load_data w) sources st))))) /\
  (forall clear, NoDup (store_keys (_addons (snd (update w clear st))))) /\
  (forall d1 d2 i,
     validate_entry_schema (VDict d1) = Ok tt ->
     validate_entry_schema (VDict d2) = Ok tt ->
     dict_find d1 "id" = Some (VStr i) ->
     dict_find d2 "id" = Some (VStr i) ->
     ~ excluded (platform_name w) d2 ->
     exists u2 st',
       dict_find d2 "username" = Some u2 /\
       for_each (_load_data w) [VList [VDict d1]; VList [VDict d2]] st = (Ok tt, st') /\
       count_occ string_dec (store_keys (_addons st')) i = 1%nat /\
       store_get (_addons st') i = Some (entry_record d2 i u2)).
Proof.
  intros Hst. split; [|split].
  - intros sources.
    apply (for_each_invariant (fun s => NoDup (store_keys (_addons s)))); [|exact Hst].
    intros data s. apply _load_data_nodup.
  - intros clear. now apply update_nodup.
  - intros d1 d2 i Hv1 Hv2 Hi1 Hi2 Hloaded.
    apply validate_entry_schema_ok in Hv1, Hv2.
    destruct (valid_required_field d2 "username" Hv2) as [u2 Hu2]; [simpl; auto|].
    destruct (load_entry_valid (platform_name w) (VDict d1) st Hv1) as [st1 E1].
    assert (Hst1 : NoDup (store_keys (_addons st1))).
    { pose proof (load_entry_nodup (platform_name w) (VDict d1) st Hst) as H.
      now rewrite E1 in H. }
    assert (E2 : load_entry (platform_name w) (VDict d2) st1 =
                 (Ok tt, with_addons st1
                           (store_set (_addons st1) i (entry_record d2 i (VStr u2))))).
    { apply load_entry_loaded; auto.
      apply not_excluded; auto using valid_platforms. }
    exists (VStr u2),
           (with_addons st1 (store_set (_addons st1) i (entry_record d2 i (VStr u2)))).
    split; [exact Hu2|]. split.
    + cbn [for_each]. unfold _load_data, bind, lift, ret. cbn [iterate for_each].
      unfold bind, ret. rewrite E1. cbv beta iota. rewrite E2. reflexivity.
    + simpl. split; [|apply store_get_set_same].
      apply NoDup_count_occ'.
      * now apply store_set_nodup.
      * eapply store_get_some_in. apply store_get_set_same.
Qed.

Lemma second_a_not_excluded platform : ~ excluded platform second_a.
Proof. intros (l & Hl & _). discriminate Hl. Qed.

Lemma one_record_per_id_witness :
  exists u2 st',
    dict_find second_a "username" = Some u2 /\
    for_each (_load_data sample_world) [VList [VDict first_a]; VList [VDict second_a]]
             sample_state = (Ok tt, st') /\
    count_occ string_dec (store_keys (_addons st')) "a" = 1%nat /\
    store_get (_addons st') "a" = Some (entry_record second_a "a" u2).
Proof.
  destruct (one_record_per_id sample_world sample_state (NoDup_nil string)) as (_ & _ & H).
  apply (H first_a second_a "a"); try reflexivity.
  apply second_a_not_excluded.
Defined.

(** C9.  Loading an entry whose id the store already holds keeps the ids
    of the store in the order they had: the id is not moved to the end.
    Its record becomes the one built from the entry, and the records of
    the other ids stay as they were. *)
Theorem overwrite_keeps_position (platform : string) (d : list (value * value))
        (i : string) (st : state) :
  validate_entry_schema (VDict d) = Ok tt ->
  dict_find d "id" = Some (VStr i) ->
  ~ excluded platform d ->
  store_get (_addons st) i <> None ->
  exists u st',
    dict_find d "username" = Some u /\
    load_entry platform (VDict d) st = (Ok tt, st') /\
    store_keys (_addons st') = store_keys (_addons st) /\
    store_get (_addons st') i = Some (entry_record d i u) /\
    (forall j, j <> i -> store_get (_addons st') j = store_get (_addons st) j).
Proof.
  intros Hvalid Hid Hloaded Hpresent.
  apply validate_entry_schema_ok in Hvalid.
  destruct (valid_required_field d "username" Hvalid) as [u Hu]; [simpl; auto|].
  exists (VStr u), (with_addons st (store_set (_addons st) i (entry_record d i (VStr u)))).
  split; [exact Hu|]. split.
  - apply load_entry_loaded; auto.
    apply not_excluded; auto using valid_platforms.
  - simpl. split; [now apply store_keys_set_present|].
    split; [apply store_get_set_same|].
    intros j Hj. now apply store_get_set_other.
Qed.

Lemma overwrite_keeps_position_witness :
  exists u st',
    dict_find second_a "username" = Some u /\
    load_entry "linux" (VDict second_a)
      (with_addons sample_state
         [("a", entry_record first_a "a" (VStr "u"));
          ("z", entry_record (sample_entry "z" []) "z" (VStr "u"))]) = (Ok tt, st') /\
    store_keys (_addons st') = ["a"; "z"] /\
    store_get (_addons st') "a" = Some (entry_record second_a "a" u) /\
    (forall j, j <> "a" ->
       store_get (_addons st') j =
       store_get [("a", entry_record first_a "a" (VStr "u"));
                  ("z", entry_record (sample_entry "z" []) "z" (VStr "u"))] j).
Proof.
  apply (overwrite_keeps_position "linux" second_a "a"
           (with_addons sample_state
              [("a", entry_record first_a "a" (VStr "u"));
               ("z", entry_record (sample_entry "z" []) "z" (VStr "u"))])).
  - reflexivity.
  - reflexivity.
  - apply second_a_not_excluded.
  - simpl. discriminate.
Defined.

(** ** Release resolution *)

Lemma format_latest_release_url u r :
  format GITHUB_LATEST_RELEASE_URL [("username", VStr u); ("repository", VStr r)]
  = Ok (latest_release_endpoint u r).
Proof. reflexivity. Qed.

Lemma latest_release_run w u r default st :
  latest_release w u r default st =
  (res_bind (urlopen_read w (latest_release_endpoint u r))
     (fun body => res_bind (json_loads w body)
        (fun data => get_method data "tag_name" default)),
   with_requests st (requests st ++ [latest_release_endpoint u r])).
Proof.
  unfold latest_release, bind, lift, get_request.
  rewrite format_latest_release_url.
  destruct (urlopen_read w (latest_release_endpoint u r)) as [body|e]; simpl; [|reflexivity].
  destruct (json_loads w body) as [data|e]; reflexivity.
Qed.

Lemma get_latest_release_hit w u r st tag :
  fresh_release st u r = Some tag ->
  get_latest_release w (VStr u) (VStr r) st = (Ok tag, st).
Proof.
  unfold fresh_release, get_latest_release, cached.
  destruct (release_cache_find (latest_release_cache st) (u, r)) as [[t expiry]|];
    [|discriminate].
  destruct (now st <? expiry); [|discriminate].
  now intros [= ->].
Qed.

Lemma get_latest_release_miss w u r st :
  fresh_release st u r = None ->
  get_latest_release w (VStr u) (VStr r) st =
  match latest_release w u r (VStr "master") st with
  | (Ok tag, st') =>
      (Ok tag,
       with_latest_release_cache st'
         (release_cache_set (latest_release_cache st') (u, r) (tag, now st' + 60 * 60)))
  | (Raise e, st') => (Raise e, st')
  end.
Proof.
  unfold fresh_release, get_latest_release, cached.
  destruct (release_cache_find (latest_release_cache st) (u, r)) as [[t expiry]|];
    [|reflexivity].
  destruct (now st <? expiry); [discriminate | reflexivity].
Qed.

Lemma _get_addon_branch_unset w addon st :
  truthy (branch addon) = false ->
  _get_addon_branch w addon st = get_latest_release w (username addon) (repository addon) st.
Proof. unfold _get_addon_branch. now intros ->. Qed.

Lemma _get_addon_branch_lookup w addon u r st body d :
  truthy (branch addon) = false ->
  username addon = VStr u -> repository addon = VStr r ->
  fresh_release st u r = None ->
  urlopen_read w (latest_release_endpoint u r) = Ok body ->
  json_loads w body = Ok (VDict d) ->
  exists st',
    _get_addon_branch w addon st =
    (Ok (match dict_find d "tag_name" with Some tag => tag | None => VStr "master" end), st') /\
    requests st' = (requests st ++ [latest_release_endpoint u r])%list.
Proof.
  intros Hb Hu Hr Hmiss Hget Hjson.
  rewrite _get_addon_branch_unset by exact Hb.
  rewrite Hu, Hr, get_latest_release_miss by exact Hmiss.
  rewrite latest_release_run, Hget. simpl. rewrite Hjson. simpl.
  eexists. split; reflexivity.
Qed.

(** C3.  When [addon.branch] is set (truthy: a non-empty string), branch
    resolution returns it and touches nothing: no request is made and no
    cache is read or written.  Otherwise it is the cached latest-release
    lookup for the add-on's owner and repository: a tag still fresh in the
    cache is returned without a request, and else one GET goes to the
    latest-release endpoint and, the response being a mapping, its
    [tag_name] is returned when present and the literal [master] when
    absent. *)
Theorem _get_addon_branch_resolves (w : World) (addon : ADDON) (st : state) :
  (truthy (branch addon) = true ->
   _get_addon_branch w addon st = (Ok (branch addon), st)) /\
  (truthy (branch addon) = false ->
   _get_addon_branch w addon st =
   get_latest_release w (username addon) (repository addon) st) /\
  (forall u r,
     truthy (branch addon) = false ->
     username addon = VStr u -> repository addon = VStr r ->
     (forall tag, fresh_release st u r = Some tag ->
        _get_addon_branch w addon st = (Ok tag, st)) /\
     (forall body d,
        fresh_release st u r = None ->
        urlopen_read w (latest_release_endpoint u r) = Ok body ->
        json_loads w body = Ok (VDict d) ->
        exists st',
          _get_addon_branch w addon st =
          (Ok (match dict_find d "tag_name" with
               | Some tag => tag
               | None => VStr "master"
               end), st') /\
          requests st' = (requests st ++ [latest_release_endpoint u r])%list)).
Proof.
  split; [|split].
  - unfold _get_addon_branch. now intros ->.
  - apply _get_addon_branch_unset.
  - intros u r Hb Hu Hr. split.
    + intros tag Hhit. rewrite _get_addon_branch_unset by exact Hb.
      rewrite Hu, Hr. now apply get_latest_release_hit.
    + intros body d. now apply _get_addon_branch_lookup.
Qed.

Lemma _get_addon_branch_resolves_witness :
  exists st',
    _get_addon_branch sample_world no_branch sample_state = (Ok (VStr "v1"), st') /\
    requests st' = ["https://api.github.com/repos/u/r/releases/latest"].
Proof.
  destruct (_get_addon_branch_resolves sample_world no_branch sample_state) as (_ & _ & H).
  destruct (H "u" "r" eq_refl eq_refl eq_refl) as (_ & Hmiss).
  exact (Hmiss "release" [(VStr "tag_name", VStr "v1")] eq_refl eq_refl eq_refl).
Defined.

(** C10.  An add-on whose branch is the empty string is resolved like one
    without a branch: the result is that of the latest-release lookup, not
    the empty string, and when the cache holds no fresh tag a request goes
    to the latest-release endpoint. *)
Theorem empty_branch_is_unset (w : World) (addon : ADDON) (st : state) :
  branch addon = VStr "" ->
  _get_addon_branch w addon st =
  get_latest_release w (username addon) (repository addon) st /\
  (forall u r,
     username addon = VStr u -> repository addon = VStr r ->
     fresh_release st u r = None ->
     requests (snd (_get_addon_branch w addon st)) =
     (requests st ++ [latest_release_endpoint u r])%list).
Proof.
  intros Hb.
  assert (Hf : truthy (branch addon) = false) by now rewrite Hb.
  split; [now apply _get_addon_branch_unset|].
  intros u r Hu Hr Hmiss.
  rewrite _get_addon_branch_unset by exact Hf.
  rewrite Hu, Hr, get_latest_release_miss by exact Hmiss.
  rewrite latest_release_run.
  destruct (res_bind (urlopen_read w (latest_release_endpoint u r)) _); reflexivity.
Qed.

Lemma empty_branch_is_unset_witness :
  _get_addon_branch sample_world empty_branch sample_state =
  get_latest_release sample_world (username empty_branch) (repository empty_branch)
                     sample_state /\
  (forall u r,
     username empty_branch = VStr u -> repository empty_branch = VStr r ->
     fresh_release sample_state u r = None ->
     requests (snd (_get_addon_branch sample_world empty_branch sample_state)) =
     (requests sample_state ++ [latest_release_endpoint u r])%list).
Proof.
  apply (empty_branch_is_unset sample_world empty_branch sample_state).
  reflexivity.
Defined.

(** ** Strings *)

Lemma length_append a b :
  String.length (a ++ b) = (String.length a + String.length b)%nat.
Proof. induction a as [|c a IH]; simpl; [reflexivity | now rewrite IH]. Qed.

Lemma substring_whole a : substring 0 (String.length a) a = a.
Proof. induction a as [|c a IH]; simpl; [reflexivity | now rewrite IH]. Qed.

Lemma substring_head a b : substring 0 (String.length a) (a ++ b) = a.
Proof.
  induction a as [|c a IH]; simpl.
  - destruct b; reflexivity.
  - now rewrite IH.
Qed.

Lemma substring_skip a b n : substring (String.length a) n (a ++ b) = substring 0 n b.
Proof. induction a as [|c a IH]; simpl; [reflexivity | exact IH]. Qed.

Lemma prefix_append p s : prefix p (p ++ s) = true.
Proof.
  induction p as [|c p IH]; simpl.
  - destruct s; reflexivity.
  - rewrite IH. destruct (ascii_dec c c); [reflexivity | contradiction].
Qed.

Lemma startswith_append p s : startswith (p ++ s) p = true.
Proof. apply prefix_append. Qed.

Lemma endswith_append s suffix : endswith (s ++ suffix) suffix = true.
Proof.
  unfold endswith. rewrite length_append.
  replace (String.length s + String.length suffix - String.length suffix)%nat
    with (String.length s) by lia.
  rewrite substring_skip, substring_whole, String.eqb_refl.
  rewrite andb_true_r. apply Nat.leb_le. lia.
Qed.

Lemma py_slice_middle p v q :
  q <> "" ->
  py_slice (p ++ v ++ q) (Z.of_nat (String.length p)) (- Z.of_nat (String.length q)) = v.
Proof.
  intros Hq.
  assert (Hlen : (0 < String.length q)%nat) by (destruct q; [congruence | simpl; lia]).
  unfold py_slice. rewrite !length_append.
  destruct (Z.ltb_spec (Z.of_nat (String.length p)) 0) as [Hneg|_]; [lia|].
  destruct (Z.ltb_spec (- Z.of_nat (String.length q)) 0) as [_|Hpos]; [|lia].
  replace (Z.min (Z.of_nat (String.length p))
                 (Z.of_nat (String.length p + (String.length v + String.length q))))
    with (Z.of_nat (String.length p)) by lia.
  replace (Z.max 0 (Z.of_nat (String.length p + (String.length v + String.length q))
                    + - Z.of_nat (String.length q)))
    with (Z.of_nat (String.length p + String.length v)) by lia.
  destruct (Z.ltb_spec (Z.of_nat (String.length p))
                       (Z.of_nat (String.length p + String.length v))) as [Hlt|Hge].
  - rewrite Nat2Z.id.
    replace (Z.to_nat (Z.of_nat (String.length p + String.length v)
                       - Z.of_nat (String.length p)))
      with (String.length v) by lia.
    rewrite substring_skip. apply substring_head.
  - destruct v; [reflexivity | simpl in Hge; lia].
Qed.

Lemma string_append_assoc (a b c : string) : (a ++ b) ++ c = a ++ (b ++ c).
Proof. induction a as [|x a IH]; simpl; [reflexivity | now rewrite IH]. Qed.

(** ** Asset URLs *)

Lemma select_asset_versioned addon addon_id version formats :
  select_asset addon addon_id (addon_id ++ "-" ++ version ++ ".zip") formats =
  Ok ((formats ++ [("version", VStr version)])%list, "zip", GITHUB_ZIP_URL).
Proof.
  unfold select_asset, VERSION_SEPARATOR, ADDON_EXTENSION.
  assert (Hstart : startswith (addon_id ++ "-" ++ version ++ ".zip") (addon_id ++ "-") = true).
  { rewrite <- string_append_assoc. apply startswith_append. }
  assert (Hend : endswith (addon_id ++ "-" ++ version ++ ".zip") ".zip" = true).
  { rewrite <- (string_append_assoc "-"), <- string_append_assoc. apply endswith_append. }
  rewrite Hstart, Hend. cbn [andb].
  assert (Hslice : py_slice (addon_id ++ "-" ++ version ++ ".zip")
                     (Z.of_nat (String.length addon_id) + Z.of_nat (String.length "-"))
                     (- Z.of_nat (String.length ".zip")) = version).
  { rewrite <- Nat2Z.inj_add, <- length_append, <- string_append_assoc.
    apply py_slice_middle. discriminate. }
  now rewrite Hslice.
Qed.

Lemma format_zip_url i u r b s a version :
  format GITHUB_ZIP_URL
    ([("id", i); ("username", VStr u); ("repository", VStr r); ("branch", VStr b);
      ("system", s); ("arch", a)] ++ [("version", VStr version)])
  = Ok ("https://github.com/" ++ u ++ "/" ++ r ++ "/archive/" ++ b ++ ".zip").
Proof. reflexivity. Qed.

(** C4.  For an add-on of the store whose owner and repository are strings
    and whose [assets] mapping has no [zip] key, an asset named
    [<addon_id>-<version>.zip] is taken as the source archive: the version
    put into the formats is exactly the text between the separator and the
    extension, the key looked up in [assets] becomes [zip], and the URL
    returned is [GITHUB_ZIP_URL] formatted with the owner, the repository
    and the resolved branch (the template has no field for the version, so
    the version does not show in the URL). *)
Theorem get_asset_url_versioned_archive
        (w : World) (st st' : state) (addon_id version : string)
        (addon : ADDON) (u r b : string) (d : list (value * value)) :
  store_get (_addons st) addon_id = Some addon ->
  username addon = VStr u ->
  repository addon = VStr r ->
  assets addon = VDict d ->
  dict_find d "zip" = None ->
  _get_addon_branch w addon st = (Ok (VStr b), st') ->
  (forall formats,
     select_asset addon addon_id (addon_id ++ "-" ++ version ++ ".zip") formats =
     Ok ((formats ++ [("version", VStr version)])%list, "zip", GITHUB_ZIP_URL)) /\
  override_or_default w addon "zip" GITHUB_ZIP_URL = Ok GITHUB_ZIP_URL /\
  get_asset_url w addon_id (addon_id ++ "-" ++ version ++ ".zip") st =
  (Ok (Some ("https://github.com/" ++ u ++ "/" ++ r ++ "/archive/" ++ b ++ ".zip")), st').
Proof.
  intros Hget Hu Hr Ha Hzip Hbranch.
  assert (Hover : override_or_default w addon "zip" GITHUB_ZIP_URL = Ok GITHUB_ZIP_URL).
  { unfold override_or_default, subscript. now rewrite Ha, Hzip. }
  split; [intros formats; apply select_asset_versioned|].
  split; [exact Hover|].
  unfold get_asset_url. rewrite Hget. unfold bind, lift, ret.
  rewrite Hbranch, select_asset_versioned, Hover, Hu, Hr.
  now rewrite format_zip_url.
Qed.

Lemma get_asset_url_versioned_archive_witness :
  exists st',
    get_asset_url sample_world "r" "r-1.2.3.zip" (with_addons sample_state [("r", no_branch)])
    = (Ok (Some "https://github.com/u/r/archive/v1.zip"), st').
Proof.
  exists (snd (_get_addon_branch sample_world no_branch
                 (with_addons sample_state [("r", no_branch)]))).
  destruct (get_asset_url_versioned_archive
              sample_world (with_addons sample_state [("r", no_branch)])
              (snd (_get_addon_branch sample_world no_branch
                      (with_addons sample_state [("r", no_branch)])))
              "r" "1.2.3" no_branch "u" "r" "v1" []
              eq_refl eq_refl eq_refl eq_refl eq_refl eq_refl) as (_ & _ & H).
  exact H.
Defined.

(** C8.  For an id the store does not hold, [get_asset_url] returns [None]
    and leaves the state as it was: nothing is raised, no URL is requested
    and no branch is resolved, whatever the asset name. *)
Theorem get_asset_url_unknown (w : World) (addon_id asset : string) (st : state) :
  store_get (_addons st) addon_id = None ->
  get_asset_url w addon_id asset st = (Ok None, st).
Proof. intros H. unfold get_asset_url. now rewrite H. Qed.

Lemma get_asset_url_unknown_witness :
  get_asset_url sample_world "missing" "missing-1.0.0.zip"
                (with_addons sample_state [("r", no_branch)])
  = (Ok None, with_addons sample_state [("r", no_branch)]).
Proof.
  apply (get_asset_url_unknown sample_world "missing" "missing-1.0.0.zip"
           (with_addons sample_state [("r", no_branch)])).
  reflexivity.
Defined.

(** ** Validation and the load path *)

Lemma validate_entries_cases entries :
  validate_entries entries = Ok tt \/ validate_entries entries = Raise InvalidSchemaError.
Proof.
  induction entries as [|e entries IH]; simpl; auto.
  destruct (validate_entry_schema_cases e) as [-> | ->]; simpl; auto.
Qed.

Lemma validate_entries_raises entries :
  validate_entries entries = Raise InvalidSchemaError <->
  exists e, In e entries /\ malformed e.
Proof.
  induction entries as [|e entries IH]; simpl.
  - split; [discriminate | intros (e & [] & _)].
  - destruct (validate_entry_schema_cases e) as [E | E]; rewrite E; simpl.
    + rewrite IH. split.
      * intros (e' & Hin & Hm). eauto.
      * intros (e' & [<-|Hin] & Hm); [|eauto].
        apply validate_entry_schema_raises in Hm. congruence.
    + split; auto. intros _. exists e. split; auto.
      now apply validate_entry_schema_raises.
Qed.

Lemma validate_entries_ok entries :
  validate_entries entries = Ok tt ->
  forall e, In e entries -> ~ malformed e.
Proof.
  intros Hok e Hin Hm.
  assert (validate_entries entries = Raise InvalidSchemaError)
    by (apply validate_entries_raises; eauto).
  congruence.
Qed.

Lemma load_entries_valid platform entries st :
  (forall e, In e entries -> ~ malformed e) ->
  exists st', for_each (load_entry platform) entries st = (Ok tt, st').
Proof.
  revert st. induction entries as [|e entries IH]; intros st Hall; simpl.
  - unfold ret. eauto.
  - destruct (load_entry_valid platform e st) as [st1 E1]; [apply Hall; simpl; auto|].
    unfold bind. rewrite E1. apply IH. intros e' He'. apply Hall. simpl. auto.
Qed.

(** C2, as amended.  Validation is a step of its own, which the load path
    does not take.  [validate_json_schema] raises [InvalidSchemaError]
    exactly when the source is neither a list nor a tuple or one of its
    entries is malformed; being a function of the source alone it cannot
    touch the store.  A source that passes it is loaded by [_load_data]
    without any exception. *)
Theorem validated_source_loads (w : World) (data : value) (st : state) :
  (validate_json_schema data = Raise InvalidSchemaError <->
   (is_list data = false /\ is_tuple data = false) \/
   exists entries e,
     (data = VList entries \/ data = VTuple entries) /\ In e entries /\ malformed e) /\
  (validate_json_schema data = Ok tt ->
   exists st', _load_data w data st = (Ok tt, st')).
Proof.
  split.
  - split.
    + destruct data; simpl; auto; intros H; right;
        apply validate_entries_raises in H; destruct H as (e & Hin & Hm);
        exists l, e; auto.
    + intros [[Hl Ht] | (entries & e & [-> | ->] & Hin & Hm)].
      * destruct data; simpl in *; try reflexivity; discriminate.
      * simpl. apply validate_entries_raises. eauto.
      * simpl. apply validate_entries_raises. eauto.
  - intros Hok. unfold _load_data, bind, lift.
    destruct data; simpl in Hok; try discriminate; simpl;
      apply load_entries_valid; now apply validate_entries_ok.
Qed.

Lemma validated_source_loads_witness :
  exists st',
    _load_data sample_world (VList [VDict first_a; VDict windows_only]) sample_state
    = (Ok tt, st').
Proof.
  destruct (validated_source_loads sample_world
              (VList [VDict first_a; VDict windows_only]) sample_state) as (_ & H).
  apply H. reflexivity.
Defined.

(** C2, as stated, fails.  The first source is rejected by the validator
    for its second entry, yet [_load_data] accepts the first entry into
    the (empty) store before it raises, and what it raises is [KeyError].
    The second source is rejected by the validator for a key outside the
    schema, yet [_load_data] loads it without raising. *)
Lemma load_path_does_not_validate :
  validate_json_schema half_good_source = Raise InvalidSchemaError /\
  fst (_load_data sample_world half_good_source sample_state) = Raise KeyError /\
  _addons sample_state = [] /\
  _addons (snd (_load_data sample_world half_good_source sample_state)) =
  [("a", entry_record first_a "a" (VStr "u"))] /\
  validate_json_schema extra_key_source = Raise InvalidSchemaError /\
  fst (_load_data sample_world extra_key_source sample_state) = Ok tt /\
  store_keys (_addons (snd (_load_data sample_world extra_key_source sample_state))) = ["a"].
Proof. repeat split. Qed.

(** ** Fetching and merging *)

(** Once its URL is built, the fetch of an add-on's document never raises:
    it requests the URL once and either returns the parsed document,
    logging nothing, or logs the failure under the add-on's id and returns
    nothing. *)
Lemma fetch_addon_xml_total w addon url st :
  exists result st',
    fetch_addon_xml w addon url st = (Ok result, st') /\
    requests st' = (requests st ++ [url])%list /\
    _addons st' = _addons st /\
    ((exists body document,
        urlopen_read w url = Ok body /\ fromstring w body = Ok document /\
        result = Some document /\ log st' = log st) \/
     (exists e,
        result = None /\ log st' = (log st ++ [LogError (id addon) e])%list /\
        (urlopen_read w url = Raise e \/
         exists body, urlopen_read w url = Ok body /\ fromstring w body = Raise e))).
Proof.
  unfold fetch_addon_xml, try_except, bind, get_request, lift, logging_error, ret.
  destruct (urlopen_read w url) as [body|e] eqn:Eget; simpl.
  - destruct (fromstring w body) as [document|e] eqn:Eparse; simpl.
    + do 2 eexists. repeat split. left. eauto 6.
    + do 2 eexists. repeat split. right. exists e. eauto 6.
  - do 2 eexists. repeat split. right. exists e. eauto.
Qed.

(** [_get_addon_xml] guards the fetch.  Once the URL of the add-on's
    document is built, [_get_addon_xml] returns without raising: the
    document when the GET and the parse succeed, and otherwise nothing,
    after logging the cause under the add-on's id. *)
Theorem _get_addon_xml_guards_the_fetch
        (w : World) (addon : ADDON) (st st1 : state) (url : string) :
  addon_xml_url w addon st = (Ok url, st1) ->
  exists result st',
    _get_addon_xml w addon st = (Ok result, st') /\
    requests st' = (requests st1 ++ [url])%list /\
    ((exists body document,
        urlopen_read w url = Ok body /\ fromstring w body = Ok document /\
        result = Some document /\ log st' = log st1) \/
     (exists e,
        result = None /\ log st' = (log st1 ++ [LogError (id addon) e])%list /\
        (urlopen_read w url = Raise e \/
         exists body, urlopen_read w url = Ok body /\ fromstring w body = Raise e))).
Proof.
  intros Hurl. unfold _get_addon_xml, bind. rewrite Hurl.
  destruct (fetch_addon_xml_total w addon url st1) as (result & st' & E & Hreq & _ & H).
  exists result, st'. auto.
Qed.

Lemma _get_addon_xml_guards_the_fetch_witness :
  exists result st',
    _get_addon_xml sample_world
      (entry_record (sample_entry "bad" [(VStr "branch", VStr "m")]) "bad" (VStr "u"))
      sample_state = (Ok result, st') /\
    requests st' =
    (requests sample_state ++ ["https://raw.githubusercontent.com/u/bad/m/addon.xml"])%list /\
    ((exists body document,
        urlopen_read sample_world "https://raw.githubusercontent.com/u/bad/m/addon.xml"
          = Ok body /\
        fromstring sample_world body = Ok document /\
        result = Some document /\ log st' = log sample_state) \/
     (exists e,
        result = None /\
        log st' = (log sample_state ++ [LogError (VStr "bad") e])%list /\
        (urlopen_read sample_world "https://raw.githubusercontent.com/u/bad/m/addon.xml"
           = Raise e \/
         exists body,
           urlopen_read sample_world "https://raw.githubusercontent.com/u/bad/m/addon.xml"
             = Ok body /\
           fromstring sample_world body = Raise e))).
Proof.
  apply (_get_addon_xml_guards_the_fetch sample_world
           (entry_record (sample_entry "bad" [(VStr "branch", VStr "m")]) "bad" (VStr "u"))
           sample_state sample_state
           "https://raw.githubusercontent.com/u/bad/m/addon.xml").
  reflexivity.
Defined.

Lemma cached_log {A} lookup store seconds (operation : M A) st :
  (forall e s, log (store e s) = log s) ->
  log (snd (operation st)) = log st ->
  log (snd (cached lookup store seconds operation st)) = log st.
Proof.
  intros Hstore Hop. unfold cached.
  assert (Hre : log (snd (match operation st with
                          | (Ok a, st') => (Ok a, store (a, now st' + seconds) st')
                          | (Raise e, st') => (Raise e, st')
                          end)) = log st).
  { destruct (operation st) as [[a|e] st']; simpl in *; [now rewrite Hstore | exact Hop]. }
  destruct (lookup st) as [[a expiry]|]; [|exact Hre].
  destruct (now st <? expiry); [reflexivity | exact Hre].
Qed.

Lemma _get_addon_branch_log w addon st :
  log (snd (_get_addon_branch w addon st)) = log st.
Proof.
  unfold _get_addon_branch.
  destruct (truthy (branch addon)); [reflexivity|].
  unfold get_latest_release.
  destruct (username addon); try reflexivity.
  destruct (repository addon); try reflexivity.
  apply cached_log; [reflexivity|].
  now rewrite latest_release_run.
Qed.

Lemma addon_xml_url_log w addon st :
  log (snd (addon_xml_url w addon st)) = log st.
Proof.
  unfold addon_xml_url, bind, lift.
  destruct (get_method (assets addon) "addon.xml" (VStr "addon.xml")); [|reflexivity].
  destruct (urljoin_value w GITHUB_CONTENT_BASE_URL a); [|reflexivity].
  pose proof (_get_addon_branch_log w addon st) as H.
  destruct (_get_addon_branch w addon st) as [[b|e] st1]; simpl in *; exact H.
Qed.

Lemma _get_addon_xml_log w addon st :
  (forall e, fst (_get_addon_xml w addon st) = Raise e ->
     log (snd (_get_addon_xml w addon st)) = log st) /\
  (forall document, fst (_get_addon_xml w addon st) = Ok (Some document) ->
     log (snd (_get_addon_xml w addon st)) = log st) /\
  (fst (_get_addon_xml w addon st) = Ok None ->
     exists e, log (snd (_get_addon_xml w addon st)) = (log st ++ [LogError (id addon) e])%list).
Proof.
  unfold _get_addon_xml, bind.
  pose proof (addon_xml_url_log w addon st) as Hurl.
  destruct (addon_xml_url w addon st) as [[url|e0] st1]; simpl in *.
  - destruct (fetch_addon_xml_total w addon url st1)
      as (result & st2 & E & _ & _ & [(body & doc & _ & _ & -> & Hlog) | (e & -> & Hlog & _)]);
      rewrite E; simpl; rewrite Hlog, Hurl.
    + repeat split; auto. discriminate.
    + repeat split; try discriminate. intros _. eauto.
  - repeat split; auto; discriminate.
Qed.

(** Both ways of collecting return the same root or raise the same
    exception; they differ only in how far the remaining tasks have run
    when one raises. *)
Lemma merge_sequential_result w addons root st :
  fst (merge_sequential w addons root st) =
  merge_futures (fst (run_submitted w addons st)) root.
Proof.
  revert root st. induction addons as [|a addons IH]; intros root st; simpl.
  - reflexivity.
  - unfold bind.
    destruct (_get_addon_xml w a st) as [[result|e] st1].
    + specialize (IH (append_result root result) st1).
      destruct (run_submitted w addons st1) as [futures st2]. simpl in *. exact IH.
    + destruct (run_submitted w addons st1) as [futures st2]. reflexivity.
Qed.

Lemma merge_sequential_state w addons root st :
  (forall f, In f (fst (run_submitted w addons st)) -> exists r, f = Ok r) ->
  snd (merge_sequential w addons root st) = snd (run_submitted w addons st).
Proof.
  revert root st. induction addons as [|a addons IH]; intros root st Hok; simpl in *.
  - reflexivity.
  - unfold bind.
    destruct (_get_addon_xml w a st) as [[result|e] st1].
    + specialize (IH (append_result root result) st1).
      destruct (run_submitted w addons st1) as [futures st2]. simpl in *.
      apply IH. intros f Hf. apply Hok. auto.
    + destruct (run_submitted w addons st1) as [futures st2]. simpl in Hok.
      destruct (Hok (Raise e)) as [r Hr]; [auto | discriminate].
Qed.

Lemma merge_futures_all_ok futures tag attrib text children :
  (forall f, In f futures -> exists r, f = Ok r) ->
  merge_futures futures (mkElement tag attrib text children) =
  Ok (mkElement tag attrib text (children ++ documents futures)).
Proof.
  revert children. induction futures as [|f futures IH]; intros children Hok; simpl.
  - now rewrite app_nil_r.
  - destruct (Hok f) as [r ->]; [simpl; auto|].
    destruct r as [document|]; simpl.
    + rewrite IH by (intros f Hf; apply Hok; simpl; auto).
      now rewrite <- app_assoc.
    + apply IH. intros f Hf. apply Hok. simpl. auto.
Qed.

Lemma run_submitted_length w addons st :
  List.length (fst (run_submitted w addons st)) = List.length addons.
Proof.
  revert st. induction addons as [|a addons IH]; intros st; simpl; [reflexivity|].
  destruct (_get_addon_xml w a st) as [f st1]. specialize (IH st1).
  destruct (run_submitted w addons st1) as [futures st2]. simpl in *. now rewrite IH.
Qed.

Lemma documents_and_failures futures :
  (forall f, In f futures -> exists r, f = Ok r) ->
  (List.length (documents futures) + failures futures = List.length futures)%nat.
Proof.
  unfold documents, failures.
  induction futures as [|f futures IH]; intros Hok; simpl; [reflexivity|].
  specialize (IH (fun f Hf => Hok f (or_intror Hf))).
  destruct (Hok f) as [[document|] ->]; simpl; auto; simpl; lia.
Qed.

Lemma run_submitted_log w addons st :
  exists new,
    log (snd (run_submitted w addons st)) = (log st ++ new)%list /\
    List.length new = failures (fst (run_submitted w addons st)) /\
    Forall2 (fun a f => f = Ok None -> exists e, In (LogError (id a) e) new)
            addons (fst (run_submitted w addons st)).
Proof.
  revert st. induction addons as [|a addons IH]; intros st; simpl.
  - exists []. rewrite app_nil_r. repeat split. constructor.
  - pose proof (_get_addon_xml_log w a st) as (Hraise & Hsome & Hnone).
    destruct (_get_addon_xml w a st) as [f st1]. simpl in *.
    destruct (IH st1) as (new1 & Hlog1 & Hlen1 & Hall1).
    destruct (run_submitted w addons st1) as [futures st2]. simpl in *.
    assert (Hweak : forall first,
              Forall2 (fun a f => f = Ok None ->
                                  exists e, In (LogError (id a) e) (first ++ new1))
                      addons futures).
    { intros first. eapply Forall2_impl; [|exact Hall1].
      intros a0 f0 H Hf0. destruct (H Hf0) as [e He]. exists e.
      apply in_or_app. now right. }
    destruct f as [[document|]|e].
    + exists new1. rewrite Hlog1, (Hsome document eq_refl).
      repeat split; auto. constructor; [discriminate | exact (Hweak [])].
    + destruct (Hnone eq_refl) as [e He].
      exists (LogError (id a) e :: new1). rewrite Hlog1, He, <- app_assoc.
      unfold failures in *. simpl. rewrite Hlen1. repeat split.
      constructor; [|exact (Hweak [LogError (id a) e])].
      intros _. exists e. simpl. auto.
    + exists new1. rewrite Hlog1, (Hraise e eq_refl).
      repeat split; auto. constructor; [discriminate | exact (Hweak [])].
Qed.

Lemma build_root_run w st :
  fst (build_root w st) =
  merge_futures (fst (run_submitted w (store_values (_addons st)) st))
                (mkElement "addons" [] "" []).
Proof.
  unfold build_root.
  destruct (Z.min (_max_threads st) (Z.of_nat (List.length (_addons st))) <=? 1).
  - apply merge_sequential_result.
  - destruct (run_submitted w (store_values (_addons st)) st). reflexivity.
Qed.

(** Failure isolation, where it holds.  When no add-on's task raises (the
    URL of each is built and its branch resolved), the root returned by
    either way of collecting holds the fetched documents in store order,
    one per add-on whose fetch succeeded: with [N] add-ons and [K] failed
    fetches it has [N - K] children, [K] records are added to the log, and
    each failed add-on has an error record under its id. *)
Theorem build_root_isolates_failures (w : World) (st : state) :
  (forall f, In f (fst (run_submitted w (store_values (_addons st)) st)) ->
             exists r, f = Ok r) ->
  exists new,
    build_root w st =
    (Ok (mkElement "addons" [] ""
           (documents (fst (run_submitted w (store_values (_addons st)) st)))),
     snd (run_submitted w (store_values (_addons st)) st)) /\
    (List.length (documents (fst (run_submitted w (store_values (_addons st)) st)))
     + failures (fst (run_submitted w (store_values (_addons st)) st))
     = List.length (_addons st))%nat /\
    log (snd (run_submitted w (store_values (_addons st)) st)) = (log st ++ new)%list /\
    List.length new = failures (fst (run_submitted w (store_values (_addons st)) st)) /\
    Forall2 (fun a f => f = Ok None -> exists e, In (LogError (id a) e) new)
            (store_values (_addons st))
            (fst (run_submitted w (store_values (_addons st)) st)).
Proof.
  intros Hok.
  destruct (run_submitted_log w (store_values (_addons st)) st) as (new & Hlog & Hlen & Hall).
  exists new. split; [|split; [|auto]].
  - pose proof (build_root_run w st) as Hfst.
    rewrite (merge_futures_all_ok _ _ _ _ _ Hok) in Hfst. simpl in Hfst.
    assert (Hsnd : snd (build_root w st) =
                   snd (run_submitted w (store_values (_addons st)) st)).
    { unfold build_root.
      destruct (Z.min (_max_threads st) (Z.of_nat (List.length (_addons st))) <=? 1).
      - now apply merge_sequential_state.
      - destruct (run_submitted w (store_values (_addons st)) st). reflexivity. }
    destruct (build_root w st) as [r s]. simpl in *. now subst.
  - rewrite (documents_and_failures _ Hok), run_submitted_length.
    unfold store_values. apply length_map.
Qed.

Lemma build_root_isolates_failures_witness :
  exists new,
    build_root sample_world (with_addons sample_state store_with_bad) =
    (Ok (mkElement "addons" [] ""
           (documents (fst (run_submitted sample_world (store_values store_with_bad)
                              (with_addons sample_state store_with_bad))))),
     snd (run_submitted sample_world (store_values store_with_bad)
            (with_addons sample_state store_with_bad))) /\
    (List.length (documents (fst (run_submitted sample_world (store_values store_with_bad)
                                    (with_addons sample_state store_with_bad))))
     + failures (fst (run_submitted sample_world (store_values store_with_bad)
                        (with_addons sample_state store_with_bad)))
     = 3)%nat /\
    log (snd (run_submitted sample_world (store_values store_with_bad)
                (with_addons sample_state store_with_bad))) = ([] ++ new)%list /\
    List.length new = failures (fst (run_submitted sample_world (store_values store_with_bad)
                                       (with_addons sample_state store_with_bad))) /\
    Forall2 (fun a f => f = Ok None -> exists e, In (LogError (id a) e) new)
            (store_values store_with_bad)
            (fst (run_submitted sample_world (store_values store_with_bad)
                    (with_addons sample_state store_with_bad))).
Proof.
  apply (build_root_isolates_failures sample_world (with_addons sample_state store_with_bad)).
  intros f Hf. vm_compute in Hf.
  destruct Hf as [<-|[<-|[<-|[]]]]; eauto.
Defined.

Example build_root_with_bad :
  fst (build_root sample_world (with_addons sample_state store_with_bad)) =
  Ok (mkElement "addons" [] ""
        [mkElement "addon" [("src", "https://raw.githubusercontent.com/u/a/m/addon.xml")] "" [];
         mkElement "addon" [("src", "https://raw.githubusercontent.com/u/c/m/addon.xml")] "" []]) /\
  log (snd (build_root sample_world (with_addons sample_state store_with_bad))) =
  [LogError (VStr "bad") URLError].
Proof. split; reflexivity. Qed.

(** C1 at a failing input.  Of three add-ons, the second has no branch and
    its latest-release lookup fails.  The exception leaves
    [_get_addon_xml], which guards only the fetch of the document, and the
    aggregation raises it instead of returning a manifest with the other
    two documents, with the pool ([_max_threads] 5) as without it
    ([_max_threads] 1); nothing is logged for the add-on. *)
Theorem get_addons_xml_aborts_on_release_failure :
  fst (_get_addon_xml sample_world
         (entry_record (sample_entry "down" []) "down" (VStr "u"))
         (with_addons sample_state store_with_down)) = Raise URLError /\
  fst (get_addons_xml sample_world (with_addons sample_state store_with_down))
  = Raise URLError /\
  fst (get_addons_xml sample_world (with_addons (init_state [] [] 1 0) store_with_down))
  = Raise URLError /\
  log (snd (get_addons_xml sample_world (with_addons sample_state store_with_down))) = [] /\
  log (snd (get_addons_xml sample_world
              (with_addons (init_state [] [] 1 0) store_with_down))) = [].
Proof. repeat split. Qed.

(** * Further properties of the loader *)










Lemma excludedb_true platform d : excludedb platform d = true -> excluded platform d.
Proof.
  unfold excludedb, excluded.
  destruct (dict_find d "platforms") as [[| | | | |[|x l]| |]|]; try discriminate.
  intros H. exists (x :: l). repeat split; [discriminate|].
  intros Hin. apply existsb_eq_str in Hin. rewrite Hin in H. discriminate.
Qed.

Lemma excludedb_false platform d :
  excludedb platform d = false -> ~ excluded platform d.
Proof.
  unfold excludedb. intros H (l & Hl & Hne & Hnot). rewrite Hl in H.
  destruct l as [|x l]; [congruence|].
  apply negb_false_iff in H. apply existsb_eq_str in H. contradiction.
Qed.

Lemma load_entry_valid_step platform e st :
  ~ malformed e ->
  load_entry platform e st =
  (Ok tt,
   match loaded_record platform e with
   | Some (i, a) => with_addons st (store_set (_addons st) i a)
   | None =>
       match e with
       | VDict d => with_log st (log st ++ [LogDebug (dict_get d "id" VNone) platform])
       | _ => st
       end
   end).
Proof.
  intros Hok.
  destruct e as [| | | | | | |d];
    try (exfalso; apply Hok; now apply not_a_mapping).
  destruct (valid_required_field d "id" Hok) as [i Hi]; [simpl; auto|].
  destruct (valid_required_field d "username" Hok) as [u Hu]; [simpl; auto|].
  unfold loaded_record, dict_get. rewrite Hi, Hu.
  destruct (excludedb platform d) eqn:Ex.
  - apply load_entry_skipped; [exact Hi | now apply excludedb_true].
  - apply load_entry_loaded; auto.
    apply not_excluded; [now apply valid_platforms | now apply excludedb_false].
Qed.

Lemma load_entries_last_loaded platform entries st i :
  (forall e, In e entries -> ~ malformed e) ->
  store_get (_addons (snd (for_each (load_entry platform) entries st))) i =
  match last_loaded platform i entries with
  | Some a => Some a
  | None => store_get (_addons st) i
  end.
Proof.
  revert st. induction entries as [|e entries IH]; intros st Hall; simpl.
  - reflexivity.
  - unfold bind. rewrite (load_entry_valid_step platform e st) by (apply Hall; simpl; auto).
    rewrite IH by (intros e' He'; apply Hall; simpl; auto).
    destruct (last_loaded platform i entries); [reflexivity|].
    destruct (loaded_record platform e) as [[j a]|].
    + simpl. destruct (String.eqb_spec j i) as [->|Hne].
      * apply store_get_set_same.
      * apply store_get_set_other. congruence.
    + destruct e; reflexivity.
Qed.

Lemma store_keys_set s k a : store_keys (store_set s k a) = add_key (store_keys s) k.
Proof.
  unfold add_key.
  destruct (existsb (String.eqb k) (store_keys s)) eqn:E.
  - apply store_keys_set_present. intros Hnone. apply store_get_none in Hnone.
    apply existsb_exists in E. destruct E as (x & Hx & Heq).
    apply String.eqb_eq in Heq. now subst.
  - apply store_keys_set_absent. apply store_get_none. intros Hin.
    assert (existsb (String.eqb k) (store_keys s) = true).
    { apply existsb_exists. exists k. split; [exact Hin | apply String.eqb_refl]. }
    congruence.
Qed.

Lemma load_entries_keys platform entries st :
  (forall e, In e entries -> ~ malformed e) ->
  store_keys (_addons (snd (for_each (load_entry platform) entries st))) =
  loaded_keys platform entries (store_keys (_addons st)).
Proof.
  unfold loaded_keys.
  revert st. induction entries as [|e entries IH]; intros st Hall; simpl.
  - reflexivity.
  - unfold bind. rewrite (load_entry_valid_step platform e st) by (apply Hall; simpl; auto).
    rewrite IH by (intros e' He'; apply Hall; simpl; auto).
    f_equal. destruct (loaded_record platform e) as [[j a]|].
    + simpl. apply store_keys_set.
    + destruct e; reflexivity.
Qed.

(** Later wins.  After a validated source is loaded, the record under an
    id is the one built from the last entry of the source that carries
    the id and is not skipped for the platform; when the source has no
    such entry the record is the one the store held before, if any. *)
Theorem later_entry_wins (w : World) (entries : list value) (st : state) (i : string) :
  validate_json_schema (VList entries) = Ok tt ->
  store_get (_addons (snd (_load_data w (VList entries) st))) i =
  match last_loaded (platform_name w) i entries with
  | Some a => Some a
  | None => store_get (_addons st) i
  end.
Proof.
  intros Hok. unfold _load_data, bind, lift. simpl.
  apply load_entries_last_loaded. now apply validate_entries_ok.
Qed.

Lemma later_entry_wins_witness :
  store_get (_addons (snd (_load_data sample_world
                             (VList [VDict first_a; VDict second_a; VDict windows_only])
                             sample_state))) "a" =
  match last_loaded (platform_name sample_world) "a"
                    [VDict first_a; VDict second_a; VDict windows_only] with
  | Some a => Some a
  | None => store_get (_addons sample_state) "a"
  end.
Proof.
  apply (later_entry_wins sample_world
           [VDict first_a; VDict second_a; VDict windows_only] sample_state "a").
  reflexivity.
Defined.

(** Iteration order is the order of first insertion.  After a validated
    source is loaded, the ids of the store are the ids it held, in their
    order, followed by the ids the source brings in, each at the place of
    its first loaded entry; an id loaded again does not move. *)
Theorem store_order_is_first_insertion (w : World) (entries : list value) (st : state) :
  validate_json_schema (VList entries) = Ok tt ->
  store_keys (_addons (snd (_load_data w (VList entries) st))) =
  loaded_keys (platform_name w) entries (store_keys (_addons st)).
Proof.
  intros Hok. unfold _load_data, bind, lift. simpl.
  apply load_entries_keys. now apply validate_entries_ok.
Qed.

Lemma store_order_is_first_insertion_witness :
  store_keys (_addons (snd (_load_data sample_world
                              (VList [VDict (sample_entry "z" []); VDict first_a;
                                      VDict windows_only; VDict (sample_entry "z" [])])
                              sample_state))) =
  loaded_keys (platform_name sample_world)
              [VDict (sample_entry "z" []); VDict first_a;
               VDict windows_only; VDict (sample_entry "z" [])]
              (store_keys (_addons sample_state)).
Proof.
  apply (store_order_is_first_insertion sample_world
           [VDict (sample_entry "z" []); VDict first_a;
            VDict windows_only; VDict (sample_entry "z" [])] sample_state).
  reflexivity.
Defined.

Example store_order_sample :
  loaded_keys "linux"
              [VDict (sample_entry "z" []); VDict first_a;
               VDict windows_only; VDict (sample_entry "z" [])] ["q"]
  = ["q"; "z"; "a"].
Proof. reflexivity. Qed.

(** * Invariants of the store *)

Lemma store_set_forall (P : string -> ADDON -> Prop) s k a :
  Forall (fun ka => P (fst ka) (snd ka)) s -> P k a ->
  Forall (fun ka => P (fst ka) (snd ka)) (store_set s k a).
Proof.
  intros Hs Ha. induction s as [|[k' a'] s IH]; simpl.
  - constructor; [exact Ha | constructor].
  - inversion Hs as [|x l Hx Hl]; subst.
    destruct (String.eqb_spec k' k) as [->|Hne]; constructor; auto.
Qed.






Lemma valid_assets d v :
  ~ malformed (VDict d) -> dict_find d "assets" = Some v -> is_string_mapping v = true.
Proof.
  intros Hok Hfind. apply dict_find_some_in in Hfind.
  destruct v as [| | | | | | |m];
    try solve [exfalso; apply Hok;
               eapply item_at_fault;
               [exact Hfind | apply mapping_field_not_mapping; simpl; auto]].
  simpl. apply forallb_forall. intros [k' v'] Hin. simpl.
  destruct (is_string k') eqn:Ek; [destruct (is_string v') eqn:Ev; [reflexivity|]|];
    exfalso; apply Hok;
    (eapply item_at_fault;
     [exact Hfind | eapply mapping_with_non_string; [simpl; auto | exact Hin | auto]]).
Qed.

Lemma entry_record_well_typed d i u :
  ~ malformed (VDict d) -> well_typed (entry_record d i (VStr u)) = true.
Proof.
  intros Hok. unfold well_typed, entry_record. simpl.
  assert (Hb : match (match dict_find d "branch" with Some b => b | None => VNone end) with
               | VNone | VStr _ => true | _ => false end = true).
  { destruct (dict_find d "branch") as [b|] eqn:E; [|reflexivity].
    destruct (valid_string_field d "branch" b Hok) as [s ->]; simpl; auto. }
  assert (Ha : is_string_mapping
                 (match dict_find d "assets" with Some a => a | None => VDict [] end) = true).
  { destruct (dict_find d "assets") as [a|] eqn:E; [|reflexivity].
    eapply valid_assets; eauto. }
  assert (Hp : is_string
                 (match dict_find d "asset_prefix" with Some p => p | None => VStr "" end)
               = true).
  { destruct (dict_find d "asset_prefix") as [p|] eqn:E; [|reflexivity].
    destruct (valid_string_field d "asset_prefix" p Hok) as [s ->]; simpl; auto 6. }
  assert (Hr : is_string
                 (match dict_find d "repository" with Some r => r | None => VStr i end)
               = true).
  { destruct (dict_find d "repository") as [r|] eqn:E; [|reflexivity].
    destruct (valid_string_field d "repository" r Hok) as [s ->]; simpl; auto 6. }
  now rewrite Hb, Ha, Hp, Hr.
Qed.

Lemma loaded_record_well_typed platform e i a :
  ~ malformed e -> loaded_record platform e = Some (i, a) -> well_typed a = true.
Proof.
  intros Hok. destruct e as [| | | | | | |d]; try discriminate.
  destruct (valid_required_field d "id" Hok) as [j Hj]; [simpl; auto|].
  destruct (valid_required_field d "username" Hok) as [u Hu]; [simpl; auto|].
  unfold loaded_record. rewrite Hj, Hu.
  destruct (excludedb platform d); [discriminate|].
  intros [= <- <-]. now apply entry_record_well_typed.
Qed.

Lemma for_each_invariant_in {A} (P : state -> Prop) (f : A -> M unit) l :
  (forall a st, In a l -> P st -> P (snd (f a st))) ->
  forall st, P st -> P (snd (for_each f l st)).
Proof.
  induction l as [|a l IH]; intros Hf st Hst; simpl; [exact Hst|].
  unfold bind. pose proof (Hf a st (or_introl eq_refl) Hst) as H1.
  destruct (f a st) as [[[]|e] st']; simpl in *; [|exact H1].
  apply IH; [|exact H1]. intros b s Hb. apply Hf. now right.
Qed.

(** Validated sources give well-typed records.  When every record of the
    store has the field types of the schema, it still has after a source
    that passes [validate_json_schema] is loaded: ids, owners, prefixes
    and repositories are strings, a branch is a string or absent, and
    [assets] maps strings to strings. *)
Theorem validated_load_keeps_records_well_typed (w : World) (data : value) (st : state) :
  validate_json_schema data = Ok tt ->
  all_well_typed (_addons st) ->
  all_well_typed (_addons (snd (_load_data w data st))).
Proof.
  intros Hvalid Hst.
  assert (Hentries : exists entries,
             iterate data = Ok entries /\ forall e, In e entries -> ~ malformed e).
  { destruct data; simpl in Hvalid; try discriminate;
      (exists l; split; [reflexivity | now apply validate_entries_ok]). }
  destruct Hentries as (entries & Hit & Hall).
  unfold _load_data, bind, lift. rewrite Hit.
  apply (for_each_invariant_in (fun s => all_well_typed (_addons s))); [|exact Hst].
  intros e s He Hs.
  rewrite (load_entry_valid_step (platform_name w) e s) by now apply Hall.
  destruct (loaded_record (platform_name w) e) as [[i a]|] eqn:E.
  - simpl. apply (store_set_forall (fun _ a => well_typed a = true)); [exact Hs|].
    eapply loaded_record_well_typed; eauto.
  - destruct e; exact Hs.
Qed.

Lemma validated_load_keeps_records_well_typed_witness :
  all_well_typed
    (_addons (snd (_load_data sample_world
                     (VList [VDict first_a; VDict second_a; VDict windows_only])
                     sample_state))).
Proof.
  apply (validated_load_keeps_records_well_typed sample_world
           (VList [VDict first_a; VDict second_a; VDict windows_only]) sample_state).
  - reflexivity.
  - constructor.
Defined.

(** * Further properties of asset resolution *)

Lemma format_scan_literal s t kwargs :
  no_braces s = true ->
  format_scan None (s ++ t) kwargs =
  res_bind (format_scan None t kwargs) (fun r => Ok (s ++ r)).
Proof.
  induction s as [|c s IH]; intros Hs; simpl.
  - destruct (format_scan None t kwargs); reflexivity.
  - simpl in Hs. apply andb_true_iff in Hs. destruct Hs as [Hc Hs].
    unfold is_brace in Hc. apply negb_true_iff, orb_false_iff in Hc.
    destruct Hc as [Hopen Hclose]. rewrite Hopen, Hclose, (IH Hs).
    destruct (format_scan None t kwargs); reflexivity.
Qed.

Lemma format_literal s kwargs : no_braces s = true -> format s kwargs = Ok s.
Proof.
  intros Hs. unfold format.
  assert (E : s = s ++ "") by (clear; induction s as [|c s IH]; simpl; congruence).
  rewrite E at 1. rewrite format_scan_literal by exact Hs. simpl. now rewrite <- E.
Qed.

Lemma format_content_base x i u r b sy ar :
  format (GITHUB_CONTENT_BASE_URL ++ x)
         [("id", i); ("username", VStr u); ("repository", VStr r); ("branch", VStr b);
          ("system", sy); ("arch", ar)] =
  res_bind (format x [("id", i); ("username", VStr u); ("repository", VStr r);
                      ("branch", VStr b); ("system", sy); ("arch", ar)])
           (fun rest =>
              Ok ("https://raw.githubusercontent.com/" ++ u ++ "/" ++ r ++ "/" ++ b ++ "/"
                  ++ rest)).
Proof.
  unfold format.
  destruct (format_scan None x _) as [rest|e] eqn:E; lazy in E |- *; rewrite E; reflexivity.
Qed.

Lemma get_asset_url_run w st st' addon_id asset addon b formats' key default_url :
  store_get (_addons st) addon_id = Some addon ->
  _get_addon_branch w addon st = (Ok b, st') ->
  select_asset addon addon_id asset (asset_formats w addon b) =
  Ok (formats', key, default_url) ->
  get_asset_url w addon_id asset st =
  (res_bind (override_or_default w addon key default_url)
            (fun template => res_bind (format template formats')
                                      (fun url => Ok (Some url))),
   st').
Proof.
  intros Hget Hb Hsel. unfold get_asset_url. rewrite Hget.
  unfold bind, lift, ret. rewrite Hb.
  unfold asset_formats in Hsel. rewrite Hsel.
  destruct (override_or_default w addon key default_url) as [template|e]; [|reflexivity].
  simpl. destruct (format template formats'); reflexivity.
Qed.

(** The default location of an asset.  For an add-on with string owner,
    repository and prefix whose [assets] has no entry for the asset, an
    asset that is not named like a source archive and has no brace in its
    name or prefix resolves to the content base of the owner, repository
    and resolved branch, followed by the prefix and the asset name. *)
Theorem get_asset_url_default
        (w : World) (st st' : state) (addon_id asset : string) (addon : ADDON)
        (u r p b : string) (d : list (value * value)) :
  store_get (_addons st) addon_id = Some addon ->
  username addon = VStr u ->
  repository addon = VStr r ->
  asset_prefix addon = VStr p ->
  assets addon = VDict d ->
  dict_find d asset = None ->
  archive_form addon_id asset = false ->
  no_braces (p ++ asset) = true ->
  _get_addon_branch w addon st = (Ok (VStr b), st') ->
  get_asset_url w addon_id asset st =
  (Ok (Some ("https://raw.githubusercontent.com/" ++ u ++ "/" ++ r ++ "/" ++ b ++ "/"
             ++ p ++ asset)), st').
Proof.
  intros Hget Hu Hr Hp Ha Hmiss Hform Hplain Hb.
  rewrite (get_asset_url_run w st st' addon_id asset addon (VStr b)
             (asset_formats w addon (VStr b)) asset
             ((GITHUB_CONTENT_BASE_URL ++ p) ++ asset) Hget Hb).
  - unfold override_or_default, subscript. rewrite Ha, Hmiss. cbn [res_bind].
    unfold asset_formats. rewrite Hu, Hr, string_append_assoc, format_content_base.
    now rewrite (format_literal _ _ Hplain).
  - unfold select_asset. unfold archive_form in Hform. rewrite Hform, Hp. reflexivity.
Qed.

Lemma get_asset_url_default_witness :
  exists st',
    get_asset_url sample_world "r" "icon.png" (with_addons sample_state [("r", no_branch)])
    = (Ok (Some "https://raw.githubusercontent.com/u/r/v1/icon.png"), st').
Proof.
  exists (snd (_get_addon_branch sample_world no_branch
                 (with_addons sample_state [("r", no_branch)]))).
  apply (get_asset_url_default sample_world
           (with_addons sample_state [("r", no_branch)])
           (snd (_get_addon_branch sample_world no_branch
                   (with_addons sample_state [("r", no_branch)])))
           "r" "icon.png" no_branch "u" "r" "" "v1" []);
    reflexivity.
Defined.





(** ** Names of source archives *)

Lemma prefix_split p s : prefix p s = true -> exists t, s = p ++ t.
Proof.
  revert s. induction p as [|c p IH]; intros s H.
  - exists s. reflexivity.
  - destruct s as [|c' s]; simpl in H; [discriminate|].
    destruct (ascii_dec c c') as [->|]; [|discriminate].
    destruct (IH s H) as [t ->]. exists t. reflexivity.
Qed.

Lemma substring_split s k :
  (k <= String.length s)%nat ->
  s = substring 0 k s ++ substring k (String.length s - k) s.
Proof.
  revert k. induction s as [|c s IH]; intros k Hk.
  - simpl in Hk. assert (k = 0)%nat by lia. subst. reflexivity.
  - destruct k as [|k].
    + simpl. now rewrite substring_whole.
    + simpl in *. f_equal. apply IH. lia.
Qed.

Lemma substring_skip_more a b k m :
  substring (String.length a + k) m (a ++ b) = substring k m b.
Proof. induction a as [|c a IH]; simpl; [reflexivity | exact IH]. Qed.

Lemma endswith_split s suffix :
  endswith s suffix = true ->
  (String.length suffix <= String.length s)%nat /\
  substring (String.length s - String.length suffix) (String.length suffix) s = suffix.
Proof.
  unfold endswith. intros H. apply andb_true_iff in H. destruct H as [Hlen Heq].
  apply Nat.leb_le in Hlen. apply String.eqb_eq in Heq. auto.
Qed.

Lemma dash_not_in_extension j : get j ".zip" <> Some "-"%char.
Proof. destruct j as [|[|[|[|j]]]]; simpl; discriminate. Qed.

Lemma archive_form_split addon_id asset :
  archive_form addon_id asset = true ->
  exists version, asset = addon_id ++ "-" ++ version ++ ".zip".
Proof.
  unfold archive_form, VERSION_SEPARATOR, ADDON_EXTENSION, startswith.
  intros H. apply andb_true_iff in H. destruct H as [Hstart Hend].
  apply prefix_split in Hstart. destruct Hstart as [t ->].
  apply endswith_split in Hend. destruct Hend as [Hlen Hsuffix].
  rewrite length_append in Hlen, Hsuffix.
  rewrite length_append in Hlen, Hsuffix. simpl String.length in Hlen, Hsuffix.
  destruct (Nat.le_gt_cases 4 (String.length t)) as [Hlong|Hshort].
  - exists (substring 0 (String.length t - 4) t).
    rewrite string_append_assoc. do 2 f_equal.
    replace (String.length addon_id + 1 + String.length t - 4)%nat
      with (String.length (addon_id ++ "-") + (String.length t - 4))%nat in Hsuffix
      by (rewrite length_append; simpl; lia).
    rewrite substring_skip_more in Hsuffix.
    pose proof (substring_split t (String.length t - 4) ltac:(lia)) as Ht.
    replace (String.length t - (String.length t - 4))%nat with 4%nat in Ht by lia.
    now rewrite Hsuffix in Ht.
  - exfalso.
    set (asset := (addon_id ++ "-") ++ t) in *.
    assert (Hdash : get (String.length addon_id) asset = Some "-"%char).
    { subst asset. rewrite <- append_correct1 by (rewrite length_append; simpl; lia).
      pose proof (append_correct2 addon_id "-" 0) as H0. simpl in H0.
      now rewrite <- H0. }
    pose proof (substring_split asset (String.length addon_id + 1 + String.length t - 4))
      as Hsplit.
    assert (Hlenasset : String.length asset
                        = (String.length addon_id + 1 + String.length t)%nat).
    { subst asset. rewrite !length_append. simpl. lia. }
    rewrite Hlenasset in Hsplit.
    replace (String.length addon_id + 1 + String.length t
             - (String.length addon_id + 1 + String.length t - 4))%nat
      with 4%nat in Hsplit by lia.
    rewrite Hsuffix in Hsplit. specialize (Hsplit ltac:(lia)).
    set (h := substring 0 (String.length addon_id + 1 + String.length t - 4) asset) in *.
    assert (Hh : (String.length h + 4 = String.length asset)%nat).
    { transitivity (String.length (h ++ ".zip")).
      - rewrite length_append. reflexivity.
      - now rewrite <- Hsplit. }
    pose proof (append_correct2 h ".zip" (String.length addon_id - String.length h)) as Hget.
    rewrite <- Hsplit in Hget.
    replace (String.length addon_id - String.length h + String.length h)%nat
      with (String.length addon_id) in Hget by lia.
    rewrite Hdash in Hget. exact (dash_not_in_extension _ Hget).
Qed.

(** The archive branch is taken exactly for the names
    [<addon_id>-<version>.zip], and the version put into the formats is
    the one of the name: gluing the id, the separator, the extracted
    version and the extension gives the asset name back. *)
Theorem archive_form_round_trip (addon_id asset : string) :
  archive_form addon_id asset = true <->
  asset = addon_id ++ VERSION_SEPARATOR
          ++ py_slice asset
               (Z.of_nat (String.length addon_id)
                + Z.of_nat (String.length VERSION_SEPARATOR))
               (- Z.of_nat (String.length ADDON_EXTENSION))
          ++ ADDON_EXTENSION.
Proof.
  assert (Hslice : forall version,
            py_slice (addon_id ++ "-" ++ version ++ ".zip")
                     (Z.of_nat (String.length addon_id) + Z.of_nat (String.length "-"))
                     (- Z.of_nat (String.length ".zip")) = version).
  { intros version.
    rewrite <- Nat2Z.inj_add, <- length_append, <- string_append_assoc.
    apply py_slice_middle. discriminate. }
  assert (Hform : forall version,
            archive_form addon_id (addon_id ++ "-" ++ version ++ ".zip") = true).
  { intros version. unfold archive_form, VERSION_SEPARATOR, ADDON_EXTENSION.
    apply andb_true_iff. split.
    - rewrite <- string_append_assoc. apply startswith_append.
    - rewrite <- (string_append_assoc "-"), <- string_append_assoc. apply endswith_append. }
  unfold VERSION_SEPARATOR, ADDON_EXTENSION. split.
  - intros H. destruct (archive_form_split addon_id asset H) as [version ->].
    now rewrite Hslice.
  - intros ->. apply Hform.
Qed.

(** * Further properties of [update] and of the aggregation *)

(** A refresh that fails loses the store.  When the first URL of the
    repository cannot be read, [update] raises what the request raised,
    after the request and before any file is opened; with [clear] the
    store has been emptied by then and stays empty. *)
Theorem update_fails_at_first_url
        (w : World) (clear : bool) (st : state) (u : string) (us : list string) (e : exn) :
  urls st = u :: us ->
  urlopen_read w u = Raise e ->
  update w clear st =
  (Raise e,
   with_requests (if clear then with_addons st [] else st) (requests st ++ [u])).
Proof.
  intros Hurls Hget.
  unfold update, bind, ret.
  destruct clear; simpl; rewrite Hurls; simpl;
    unfold bind, _load_url, get_request; unfold bind; simpl; rewrite Hget; reflexivity.
Qed.

Lemma update_fails_at_first_url_witness :
  update sample_world true
         (mkState [] ["https://api.github.com/repos/u/down/releases/latest"] 5
                  [("r", no_branch)] [] None 0 [] []) =
  (Raise URLError,
   mkState [] ["https://api.github.com/repos/u/down/releases/latest"] 5
           [] [] None 0 [] ["https://api.github.com/repos/u/down/releases/latest"]).
Proof.
  exact (update_fails_at_first_url sample_world true
           (mkState [] ["https://api.github.com/repos/u/down/releases/latest"] 5
                    [("r", no_branch)] [] None 0 [] [])
           "https://api.github.com/repos/u/down/releases/latest" [] URLError
           eq_refl eq_refl).
Defined.





Lemma build_root_all_ok w st :
  (forall f, In f (fst (run_submitted w (store_values (_addons st)) st)) ->
             exists r, f = Ok r) ->
  build_root w st =
  (Ok (mkElement "addons" [] ""
         (documents (fst (run_submitted w (store_values (_addons st)) st)))),
   snd (run_submitted w (store_values (_addons st)) st)).
Proof.
  intros Hok.
  pose proof (build_root_run w st) as Hfst.
  rewrite (merge_futures_all_ok _ _ _ _ _ Hok) in Hfst. simpl in Hfst.
  assert (Hsnd : snd (build_root w st) =
                 snd (run_submitted w (store_values (_addons st)) st)).
  { unfold build_root.
    destruct (Z.min (_max_threads st) (Z.of_nat (List.length (_addons st))) <=? 1).
    - now apply merge_sequential_state.
    - destruct (run_submitted w (store_values (_addons st)) st). reflexivity. }
  destruct (build_root w st) as [r s]. simpl in *. now subst.
Qed.

Lemma addon_xml_url_pinned w addon st :
  truthy (branch addon) = true ->
  addon_xml_url w addon st = (pinned_addon_xml_url w addon, st).
Proof.
  intros Hb. unfold addon_xml_url, pinned_addon_xml_url, bind, lift, _get_addon_branch.
  rewrite Hb. unfold ret.
  destruct (get_method (assets addon) "addon.xml" (VStr "addon.xml")) as [path|e];
    [|reflexivity].
  simpl. destruct (urljoin_value w GITHUB_CONTENT_BASE_URL path); reflexivity.
Qed.

Lemma fetch_addon_xml_cache w addon url st :
  latest_release_cache (snd (fetch_addon_xml w addon url st)) = latest_release_cache st.
Proof.
  unfold fetch_addon_xml, try_except, bind, get_request, lift, logging_error, ret.
  destruct (urlopen_read w url) as [body|e]; simpl; [|reflexivity].
  destruct (fromstring w body); reflexivity.
Qed.

Lemma run_submitted_pinned w addons st :
  (forall a, In a addons ->
             truthy (branch a) = true /\ exists url, pinned_addon_xml_url w a = Ok url) ->
  (forall f, In f (fst (run_submitted w addons st)) -> exists r, f = Ok r) /\
  latest_release_cache (snd (run_submitted w addons st)) = latest_release_cache st /\
  List.length (requests (snd (run_submitted w addons st))) =
  (List.length (requests st) + List.length addons)%nat.
Proof.
  revert st. induction addons as [|a addons IH]; intros st Hall; simpl.
  - repeat split; [intros f [] | lia].
  - destruct (Hall a (or_introl eq_refl)) as (Hb & url & Hurl).
    unfold _get_addon_xml, bind. rewrite (addon_xml_url_pinned w a st Hb), Hurl.
    pose proof (fetch_addon_xml_cache w a url st) as Hcache.
    destruct (fetch_addon_xml_total w a url st) as (result & st1 & E & Hreq & _ & _).
    rewrite E in *. simpl in Hcache.
    destruct (IH st1 (fun b Hb' => Hall b (or_intror Hb'))) as (Hok & Hc & Hlen).
    destruct (run_submitted w addons st1) as [futures st2]. simpl in *.
    repeat split.
    + intros f [<-|Hf]; eauto.
    + congruence.
    + rewrite Hlen, Hreq, length_app. simpl. lia.
Qed.

(** Add-ons with a branch of their own need no release lookup.  When
    every add-on of the store has its branch set and the URL of its
    [addon.xml] formats, the aggregation never raises, with the pool or
    without: it returns the fetched documents in store order, makes one
    request per add-on and leaves the release cache as it was. *)
Theorem pinned_branches_never_abort (w : World) (st : state) :
  (forall a, In a (store_values (_addons st)) ->
             truthy (branch a) = true /\ exists url, pinned_addon_xml_url w a = Ok url) ->
  exists st',
    build_root w st =
    (Ok (mkElement "addons" [] ""
           (documents (fst (run_submitted w (store_values (_addons st)) st)))), st') /\
    latest_release_cache st' = latest_release_cache st /\
    List.length (requests st') = (List.length (requests st) + List.length (_addons st))%nat.
Proof.
  intros Hall.
  destruct (run_submitted_pinned w (store_values (_addons st)) st Hall) as (Hok & Hc & Hlen).
  exists (snd (run_submitted w (store_values (_addons st)) st)).
  split; [now apply build_root_all_ok|]. split; [exact Hc|].
  rewrite Hlen. unfold store_values. now rewrite length_map.
Qed.

Lemma pinned_branches_never_abort_witness :
  exists st',
    build_root sample_world (with_addons sample_state store_with_bad) =
    (Ok (mkElement "addons" [] ""
           (documents (fst (run_submitted sample_world (store_values store_with_bad)
                              (with_addons sample_state store_with_bad))))), st') /\
    latest_release_cache st' = [] /\
    List.length (requests st') = 3%nat.
Proof.
  apply (pinned_branches_never_abort sample_world (with_addons sample_state store_with_bad)).
  intros a Ha. simpl in Ha.
  destruct Ha as [<-|[<-|[<-|[]]]]; (split; [reflexivity | eexists; reflexivity]).
Defined.


(** * Further properties of validation and of asset resolution *)

Lemma malformed_permutation d d' :
  Permutation d d' -> malformed (VDict d) -> malformed (VDict d').
Proof.
  intros Hperm H. inversion H as [v Hd|d0 name Hin Hno|d0 kv Hin Hf]; subst.
  - discriminate.
  - eapply required_key_missing; [exact Hin|].
    intros [v Hv]. apply Hno. exists v.
    eapply Permutation_in; [apply Permutation_sym; exact Hperm | exact Hv].
  - eapply item_at_fault; [|exact Hf]. eapply Permutation_in; eauto.
Qed.

(** Validation does not depend on the order of the keys: two mappings
    with the same items in any order are both accepted or both
    rejected. *)
Theorem validate_entry_schema_any_order (d d' : list (value * value)) :
  Permutation d d' ->
  validate_entry_schema (VDict d) = validate_entry_schema (VDict d').
Proof.
  intros Hperm.
  destruct (validate_entry_schema_cases (VDict d)) as [E | E];
    destruct (validate_entry_schema_cases (VDict d')) as [E' | E']; try congruence;
    exfalso.
  - apply validate_entry_schema_ok in E. apply E.
    apply validate_entry_schema_raises in E'.
    eapply malformed_permutation; [apply Permutation_sym; exact Hperm | exact E'].
  - apply validate_entry_schema_ok in E'. apply E'.
    apply validate_entry_schema_raises in E.
    eapply malformed_permutation; eauto.
Qed.

Lemma validate_entry_schema_any_order_witness :
  validate_entry_schema (VDict windows_only) = validate_entry_schema (VDict (rev windows_only)).
Proof.
  apply (validate_entry_schema_any_order windows_only (rev windows_only)).
  apply Permutation_rev.
Defined.

(** Every asset needs the branch.  For a known add-on without a branch
    and without a fresh tag in the cache, [get_asset_url] asks the
    latest-release endpoint before it looks at the asset; when that
    request raises, [get_asset_url] raises the same exception, whatever
    the asset and whatever [assets] holds. *)
Theorem get_asset_url_needs_the_branch
        (w : World) (st : state) (addon_id asset : string) (addon : ADDON)
        (u r : string) (e : exn) :
  store_get (_addons st) addon_id = Some addon ->
  truthy (branch addon) = false ->
  username addon = VStr u ->
  repository addon = VStr r ->
  fresh_release st u r = None ->
  urlopen_read w (latest_release_endpoint u r) = Raise e ->
  get_asset_url w addon_id asset st =
  (Raise e, with_requests st (requests st ++ [latest_release_endpoint u r])).
Proof.
  intros Hget Hb Hu Hr Hmiss Hurl.
  unfold get_asset_url. rewrite Hget. unfold bind.
  rewrite (_get_addon_branch_unset w addon st Hb), Hu, Hr.
  rewrite (get_latest_release_miss w u r st Hmiss), latest_release_run, Hurl.
  reflexivity.
Qed.

Lemma get_asset_url_needs_the_branch_witness :
  get_asset_url sample_world "down" "icon.png" (with_addons sample_state store_with_down) =
  (Raise URLError,
   with_requests (with_addons sample_state store_with_down)
                 ["https://api.github.com/repos/u/down/releases/latest"]).
Proof.
  exact (get_asset_url_needs_the_branch sample_world
           (with_addons sample_state store_with_down) "down" "icon.png"
           (entry_record (sample_entry "down" []) "down" (VStr "u")) "u" "down" URLError
           eq_refl eq_refl eq_refl eq_refl eq_refl eq_refl).
Defined.
